(** * KACLS front door (app.js): envelope locator, base64 codec, CORS gate
      and the wrap / unwrap routes, embedded as pure functions.

    Layout: JavaScript values, the utility functions of app.js
    ([looksLikeB64], [b64urlToBuf], [pickBase64]), the two route handlers as
    programs that may await one provider call, the Express pipeline
    (CORS gate, body parser, router), then the theorems. *)

From Stdlib Require Import List String Ascii Bool Arith Lia ZArith NArith.
From Stdlib Require Import DecimalString.
Import ListNotations.
Open Scope string_scope.

Set Implicit Arguments.

(* ------------------------------------------------------------------ *)
(** ** JavaScript values *)

(** A request body after [JSON.parse], plus [undefined].  Strings are
    sequences of one-byte code units (characters above U+00FF never pass the
    character class of [looksLikeB64]).  An object is the list of its own
    enumerable properties, each name once, in the order [Object.entries]
    enumerates them; an array is the list of its elements.  Numbers carry an integer: of a number
    in a body the routes observe only whether it is zero, and the numeral
    of a number is observed only when it is the message of a failure
    ([js_string]). *)
Unset Elimination Schemes.
Inductive value : Type :=
| JUndef
| JNull
| JBool (b : bool)
| JNum (n : Z)
| JStr (s : string)
| JArr (xs : list value)
| JObj (es : list (string * value)).
Set Elimination Schemes.

(** Induction over nested values: the elements of an array and the property
    values of an object satisfy the predicate. *)
Definition value_nested_ind (P : value -> Prop)
  (Hundef : P JUndef) (Hnull : P JNull)
  (Hbool : forall b, P (JBool b)) (Hnum : forall n, P (JNum n))
  (Hstr : forall s, P (JStr s))
  (Harr : forall xs, Forall P xs -> P (JArr xs))
  (Hobj : forall es, Forall (fun kv => P (snd kv)) es -> P (JObj es)) :
  forall v, P v :=
  fix go (v : value) : P v :=
    match v with
    | JUndef => Hundef
    | JNull => Hnull
    | JBool b => Hbool b
    | JNum n => Hnum n
    | JStr s => Hstr s
    | JArr xs =>
        Harr xs ((fix all (l : list value) : Forall P l :=
                    match l with
                    | [] => Forall_nil P
                    | x :: l' => Forall_cons x (go x) (all l')
                    end) xs)
    | JObj es =>
        Hobj es ((fix all (l : list (string * value)) :
                    Forall (fun kv => P (snd kv)) l :=
                    match l with
                    | [] => Forall_nil _
                    | kv :: l' => Forall_cons kv (go (snd kv)) (all l')
                    end) es)
    end.

Inductive jstype := TUndefined | TObject | TBoolean | TNumber | TString.

Definition typeof (v : value) : jstype :=
  match v with
  | JUndef => TUndefined
  | JNull | JArr _ | JObj _ => TObject
  | JBool _ => TBoolean
  | JNum _ => TNumber
  | JStr _ => TString
  end.

Definition is_object_type (v : value) : bool :=
  match typeof v with TObject => true | _ => false end.

(** ToBoolean. *)
Definition truthy (v : value) : bool :=
  match v with
  | JUndef | JNull => false
  | JBool b => b
  | JNum n => negb (n =? 0)%Z
  | JStr s => negb (s =? "")
  | JArr _ | JObj _ => true
  end.

Definition isArray (v : value) : bool :=
  match v with JArr _ => true | _ => false end.

(** The property key of array index [i]: its canonical decimal numeral. *)
Definition index_key (i : nat) : string :=
  NilZero.string_of_uint (Nat.to_uint i).

Definition index_keys {A} (xs : list A) : list (string * A) :=
  combine (map index_key (seq 0 (List.length xs))) xs.

Fixpoint chars (s : string) : list string :=
  match s with
  | EmptyString => []
  | String c r => String c EmptyString :: chars r
  end.

(** Own enumerable properties, in enumeration order ([Object.entries]). *)
Definition entries (v : value) : list (string * value) :=
  match v with
  | JObj es => es
  | JArr xs => index_keys xs
  | JStr s => index_keys (map JStr (chars s))
  | _ => []
  end.

(** [Object.keys]. *)
Definition Object_keys (v : value) : list string := map fst (entries v).

Fixpoint assoc {A} (k : string) (l : list (string * A)) : option A :=
  match l with
  | [] => None
  | (k', a) :: l' => if (k =? k') then Some a else assoc k l'
  end.

(** [k in body], on the own enumerable properties.  Inherited properties
    (methods of the prototypes, [__proto__]) and the [length] of an array
    hold neither a string nor an object in which a search succeeds, so they
    never change what the functions below return. *)
Definition has (body : value) (k : string) : bool :=
  match assoc k (entries body) with Some _ => true | None => false end.

(** [body[k]] (and [body?.k] on [null] and [undefined]). *)
Definition get (body : value) (k : string) : value :=
  match assoc k (entries body) with Some v => v | None => JUndef end.

(* ------------------------------------------------------------------ *)
(** ** looksLikeB64 *)

Definition in_range (lo hi c : ascii) : bool :=
  (N_of_ascii lo <=? N_of_ascii c)%N && (N_of_ascii c <=? N_of_ascii hi)%N.

(** The character class [[A-Za-z0-9+/_-]]. *)
Definition b64_class (c : ascii) : bool :=
  in_range "A" "Z" c || in_range "a" "z" c || in_range "0" "9" c
  || (c =? "+")%char || (c =? "/")%char || (c =? "_")%char || (c =? "-")%char.

Fixpoint all_pad (s : string) : bool :=
  match s with
  | EmptyString => true
  | String c r => (c =? "=")%char && all_pad r
  end.

Fixpoint class_then_pad (s : string) : bool :=
  match s with
  | EmptyString => true
  | String c r => if b64_class c then class_then_pad r else all_pad s
  end.

(** [/^[A-Za-z0-9+/_-]+=*$/.test(s)] *)
Definition b64_regex (s : string) : bool :=
  match s with
  | EmptyString => false
  | String c r => b64_class c && class_then_pad r
  end.

Definition looksLikeB64 (s : value) : bool :=
  match s with
  | JStr str => (8 <=? String.length str)%nat && b64_regex str
  | _ => false
  end.

(* ------------------------------------------------------------------ *)
(** ** pickBase64 *)

(** The object [{ key, b64, path }] returned by [pickBase64]. *)
Record located := Located { key : string; b64 : value; path : string }.

(** [r.path = f(r.path); return r] *)
Definition map_path (f : string -> string) (r : located) : located :=
  {| key := key r; b64 := b64 r; path := f (path r) |}.

(** [`${k}.${p}`] and [`[${i}].${p}`] *)
Definition dot (k p : string) : string := k ++ "." ++ p.
Definition bracket (i p : string) : string := "[" ++ i ++ "]." ++ p.

(** A [for] loop that returns from the function at the first iteration that
    produces a result. *)
Fixpoint first_some {A B} (f : A -> option B) (l : list A) : option B :=
  match l with
  | [] => None
  | a :: l' => match f a with Some b => Some b | None => first_some f l' end
  end.

(** One activation of [pickBase64] on [body], lines 57-86 of app.js; [self]
    is the recursive call. *)
Section Activation.
Variable self : value -> option located.
Variable preferredKeys : list string.
Variable enableRecursive : bool.

(** Body of the loop over [preferredKeys] (lines 61-66). *)
Definition try_preferred (body : value) (k : string) : option located :=
  let v := get body k in
  if looksLikeB64 v then Some {| key := k; b64 := v; path := k |}
  else if has body k && is_object_type (get body k)
  then option_map (map_path (dot k)) (self (get body k))
  else None.

(** Body of the loop over the array indices (lines 74-75). *)
Definition try_element (iv : string * value) : option located :=
  option_map (map_path (bracket (fst iv))) (self (snd iv)).

(** Body of the loop over [Object.entries(body)] (lines 79-83). *)
Definition try_entry (kv : string * value) : option located :=
  let (k, v) := kv in
  if looksLikeB64 v then Some {| key := k; b64 := v; path := k |}
  else if truthy v && is_object_type v
  then option_map (map_path (dot k)) (self v)
  else None.

Definition activation (body : value) : option located :=
  if negb (truthy body) || negb (is_object_type body) then None
  else
    match first_some (try_preferred body) preferredKeys with
    | Some r => Some r
    | None =>
        if negb enableRecursive then None
        else if isArray body
             then first_some try_element (entries body)
             else first_some try_entry (entries body)
    end.
End Activation.

(** The same activation reading a table: each property comes with its value
    and the result of the recursive call on that value. *)
Definition table := list (string * (value * option located)).

Section Node.
Variable preferredKeys : list string.
Variable enableRecursive : bool.

Definition node_preferred (tab : table) (k : string) : option located :=
  match assoc k tab with
  | Some (v, inner) =>
      if looksLikeB64 v then Some {| key := k; b64 := v; path := k |}
      else if is_object_type v then option_map (map_path (dot k)) inner
      else None
  | None => None
  end.

Definition node_element (e : string * (value * option located)) :=
  option_map (map_path (bracket (fst e))) (snd (snd e)).

Definition node_entry (e : string * (value * option located)) :=
  let v := fst (snd e) in
  if looksLikeB64 v then Some {| key := fst e; b64 := v; path := fst e |}
  else if truthy v && is_object_type v
  then option_map (map_path (dot (fst e))) (snd (snd e))
  else None.

Definition node (isArr : bool) (tab : table) : option located :=
  match first_some (node_preferred tab) preferredKeys with
  | Some r => Some r
  | None =>
      if negb enableRecursive then None
      else if isArr then first_some node_element tab
           else first_some node_entry tab
  end.
End Node.

(** [pickBase64(body, preferredKeys, enableRecursive)].  Every recursive call
    of the source is on a property value of [body], so the recursion is
    structural: the calls on the property values are tabulated and the
    activation reads the table.  [pickBase64_unfold] below shows that the
    function satisfies the equation of the source, [activation]. *)
Fixpoint pickBase64 (body : value) (preferredKeys : list string)
    (enableRecursive : bool) {struct body} : option located :=
  match body with
  | JObj es =>
      node preferredKeys enableRecursive false
        (map (fun kv =>
                (fst kv, (snd kv, pickBase64 (snd kv) preferredKeys enableRecursive)))
           es)
  | JArr xs =>
      node preferredKeys enableRecursive true
        (index_keys
           (map (fun v => (v, pickBase64 v preferredKeys enableRecursive)) xs))
  | _ => None
  end.

Definition wrap_keys : list string :=
  ["key"; "key_to_wrap_b64"; "keyToWrapB64"; "keyToWrap";
   "dek"; "plaintext_b64"; "plaintext"; "data"].

Definition unwrap_keys : list string :=
  ["wrapped_key"; "wrapped_key_b64"; "wrappedKeyB64"; "wrappedDek";
   "ciphertext_b64"; "ciphertext"; "data"].

(* ------------------------------------------------------------------ *)
(** ** Buffers and base64 *)

(** A [Buffer]: a sequence of bytes.  A byte is its eight bits, least
    significant first ([Ascii b0 .. b7]). *)
Definition Buffer := list ascii.

(** A sextet is a byte whose two high bits are clear.  The four sextets of
    three bytes: [a >> 2], [(a & 3) << 4 | b >> 4], [(b & 15) << 2 | c >> 6],
    [c & 63]. *)
Definition sextets_of_bytes (a b c : ascii) : ascii * ascii * ascii * ascii :=
  let '(Ascii a0 a1 a2 a3 a4 a5 a6 a7) := a in
  let '(Ascii b0 b1 b2 b3 b4 b5 b6 b7) := b in
  let '(Ascii c0 c1 c2 c3 c4 c5 c6 c7) := c in
  (Ascii a2 a3 a4 a5 a6 a7 false false,
   Ascii b4 b5 b6 b7 a0 a1 false false,
   Ascii c6 c7 b0 b1 b2 b3 false false,
   Ascii c0 c1 c2 c3 c4 c5 false false).

(** The three bytes of four sextets: [s1 << 2 | s2 >> 4],
    [(s2 & 15) << 4 | s3 >> 2], [(s3 & 3) << 6 | s4]. *)
Definition bytes_of_sextets (s1 s2 s3 s4 : ascii) : ascii * ascii * ascii :=
  let '(Ascii p0 p1 p2 p3 p4 p5 _ _) := s1 in
  let '(Ascii q0 q1 q2 q3 q4 q5 _ _) := s2 in
  let '(Ascii r0 r1 r2 r3 r4 r5 _ _) := s3 in
  let '(Ascii t0 t1 t2 t3 t4 t5 _ _) := s4 in
  (Ascii q4 q5 p0 p1 p2 p3 p4 p5,
   Ascii r2 r3 r4 r5 q0 q1 q2 q3,
   Ascii t0 t1 t2 t3 t4 t5 r0 r1).

Definition alphabet : string :=
  "ABCDEFGHIJKLMNOPQRSTUVWXYZabcdefghijklmnopqrstuvwxyz0123456789+/".

Definition b64char (sextet : ascii) : ascii :=
  match String.get (nat_of_ascii sextet) alphabet with
  | Some c => c
  | None => "="%char
  end.

(** The sextet a character stands for, in the standard or the URL-safe
    alphabet; [None] for any other character. *)
Definition unbase64 (c : ascii) : option ascii :=
  let n := N_of_ascii c in
  if in_range "A" "Z" c then Some (ascii_of_N (n - 65))
  else if in_range "a" "z" c then Some (ascii_of_N (n - 97 + 26))
  else if in_range "0" "9" c then Some (ascii_of_N (n - 48 + 52))
  else if (c =? "+")%char || (c =? "-")%char then Some (ascii_of_N 62)
  else if (c =? "/")%char || (c =? "_")%char then Some (ascii_of_N 63)
  else None.

(** [buf.toString("base64")]: standard alphabet, padded with [=]. *)
Fixpoint toString_base64 (buf : Buffer) : string :=
  match buf with
  | [] => ""
  | [a] =>
      let '(s1, s2, _, _) := sextets_of_bytes a zero zero in
      String (b64char s1) (String (b64char s2) "==")
  | [a; b] =>
      let '(s1, s2, s3, _) := sextets_of_bytes a b zero in
      String (b64char s1) (String (b64char s2) (String (b64char s3) "="))
  | a :: b :: c :: rest =>
      let '(s1, s2, s3, s4) := sextets_of_bytes a b c in
      String (b64char s1) (String (b64char s2)
        (String (b64char s3) (String (b64char s4) (toString_base64 rest))))
  end.

(** The sextets read by the decoder of Node: characters outside both
    alphabets are skipped and decoding stops at the first [=]. *)
Fixpoint sextets (s : string) : list ascii :=
  match s with
  | EmptyString => []
  | String c r =>
      if (c =? "=")%char then []
      else match unbase64 c with
           | Some x => x :: sextets r
           | None => sextets r
           end
  end.

Fixpoint bytes (l : list ascii) : Buffer :=
  match l with
  | s1 :: s2 :: s3 :: s4 :: rest =>
      let '(a, b, c) := bytes_of_sextets s1 s2 s3 s4 in a :: b :: c :: bytes rest
  | [s1; s2; s3] =>
      let '(a, b, _) := bytes_of_sextets s1 s2 s3 zero in [a; b]
  | [s1; s2] =>
      let '(a, _, _) := bytes_of_sextets s1 s2 zero zero in [a]
  | _ => []
  end.

(** [Buffer.from(s, "base64")]: total on strings, it never throws. *)
Definition Buffer_from_base64 (s : string) : Buffer := bytes (sextets s).

(** White space removed by [String.prototype.trim], among one-byte code
    units: TAB, LF, VT, FF, CR, space and NBSP. *)
Definition is_space (c : ascii) : bool :=
  let n := N_of_ascii c in
  ((9 <=? n) && (n <=? 13) || (n =? 32) || (n =? 160))%N.

Fixpoint trimStart (s : string) : string :=
  match s with
  | EmptyString => ""
  | String c r => if is_space c then trimStart r else s
  end.

Fixpoint trimEnd (s : string) : string :=
  match s with
  | EmptyString => ""
  | String c r =>
      match trimEnd r with
      | EmptyString => if is_space c then "" else String c ""
      | r' => String c r'
      end
  end.

Definition trim (s : string) : string := trimEnd (trimStart s).

(** [s.replace(/x/g, y)] for single characters. *)
Fixpoint replace_all (x y : ascii) (s : string) : string :=
  match s with
  | EmptyString => ""
  | String c r => String (if (c =? x)%char then y else c) (replace_all x y r)
  end.

Fixpoint pad (n : nat) : string :=
  match n with 0 => "" | S n' => String "=" (pad n') end.

(** [while (b64.length % 4) b64 += "="] *)
Definition pad4 (b64 : string) : string :=
  b64 ++ pad ((4 - String.length b64 mod 4) mod 4).

(** [b64urlToBuf]: [null] ([None]) exactly when the argument is not a
    string; the [catch] branch is never taken since the decoder is total. *)
Definition b64urlToBuf (b64 : value) : option Buffer :=
  match b64 with
  | JStr s =>
      let b64 := replace_all "_" "/" (replace_all "-" "+" (trim s)) in
      Some (Buffer_from_base64 (pad4 b64))
  | _ => None
  end.

(* ------------------------------------------------------------------ *)
(** ** The key-management provider and the route handlers *)

(** [kms.encrypt({ name, plaintext })] and [kms.decrypt({ name, ciphertext })]. *)
Inductive kms_call :=
| Encrypt (name : string) (plaintext : Buffer)
| Decrypt (name : string) (ciphertext : Buffer).

(** [String(v)] on a value: an array joins the strings of its elements with
    commas ([null] and [undefined] elements give the empty string), a plain
    object gives [[object Object]], a number its decimal numeral (numbers
    are integers here; from 1e21 on JavaScript prints an exponent, which is
    not modelled). *)
Fixpoint js_string (v : value) : string :=
  match v with
  | JUndef => "undefined"
  | JNull => "null"
  | JBool true => "true"
  | JBool false => "false"
  | JNum n => NilZero.string_of_int (Z.to_int n)
  | JStr s => s
  | JArr xs =>
      (fix join (l : list value) : string :=
         match l with
         | [] => ""
         | x :: l' =>
             (match x with JUndef | JNull => "" | _ => js_string x end)
             ++ (match l' with [] => "" | _ => "," ++ join l' end)
         end) xs
  | JObj _ => "[object Object]"
  end.

(** A thrown value [e]: [e.message] ([undefined] when [e] has none) and
    [String(e)]. *)
Record failure := Failure { message : value; as_string : string }.

(** The awaited call resolves with the bytes of [resp.ciphertext]
    (resp. [resp.plaintext]), or rejects, or resolves with a response on
    which the next statement (the destructuring, [Buffer.from]) throws. *)
Inductive outcome :=
| Resolved (bytes : Buffer)
| Rejected (e : failure)
| Garbled (thrown : failure).

(** [String(e?.message || e)] *)
Definition detail (e : failure) : string :=
  if truthy (message e) then js_string (message e) else as_string e.

(** What a handler sends: [res.status(code).json(body)]. *)
Record reply := Reply { code : nat; json : value }.

(** An [async] handler: it replies, or awaits one provider call and goes on
    with its outcome.  A rejection of the awaited call is what the [catch]
    of the handler receives. *)
Inductive handler :=
| Done (r : reply)
| Await (c : kms_call) (k : outcome -> handler).

(** Running a handler against a provider; the calls made are recorded in
    the order they are made. *)
Fixpoint run (kms : kms_call -> outcome) (h : handler) : reply * list kms_call :=
  match h with
  | Done r => (r, [])
  | Await c k => let (r, calls) := run kms (k (kms c)) in (r, c :: calls)
  end.

(** [req.body || {}] *)
Definition or_empty (body : value) : value :=
  if truthy body then body else JObj [].

Definition received_keys (body : value) : value :=
  JArr (map JStr (Object_keys (or_empty body))).

Section Handlers.
Variable KMS_KEY_RESOURCE : string.

(** [app.post("/wrap", ...)], lines 102-131, when the call of [pickBase64]
    returns; [wrap_on] below adds the case in which it throws. *)
Definition wrap (req_body : value) : handler :=
  let hasReason :=
    match typeof (get req_body "reason") with TString => true | _ => false end in
  match pickBase64 req_body wrap_keys true with
  | None =>
      if hasReason
      then Done (Reply 200 (JObj [("ok", JBool true);
                                  ("note", JStr "noop (error envelope)");
                                  ("reason", get req_body "reason")]))
      else Done (Reply 400 (JObj [("error", JStr "missing DEK (base64)");
                                  ("received_keys", received_keys req_body)]))
  | Some got =>
      match b64urlToBuf (b64 got) with
      | None => Done (Reply 400 (JObj [("error", JStr "invalid base64/plaintext")]))
      | Some plaintext =>
          Await (Encrypt KMS_KEY_RESOURCE plaintext)
            (fun resp =>
               match resp with
               | Resolved ciphertext =>
                   Done (Reply 200
                           (JObj [("wrapped_key", JStr (toString_base64 ciphertext))]))
               | Rejected e | Garbled e =>
                   Done (Reply 500 (JObj [("error", JStr "wrap_failed");
                                          ("detail", JStr (detail e))]))
               end)
      end
  end.

(** [app.post("/unwrap", ...)], lines 134-160, when the call of [pickBase64]
    returns; [unwrap_on] below adds the case in which it throws. *)
Definition unwrap (req_body : value) : handler :=
  match pickBase64 req_body unwrap_keys true with
  | None =>
      Done (Reply 400
              (JObj [("error", JStr "missing wrapped_key/ciphertext (base64)");
                     ("received_keys", received_keys req_body)]))
  | Some got =>
      match b64urlToBuf (b64 got) with
      | None => Done (Reply 400 (JObj [("error", JStr "invalid base64/ciphertext")]))
      | Some ciphertext =>
          Await (Decrypt KMS_KEY_RESOURCE ciphertext)
            (fun resp =>
               match resp with
               | Resolved plaintext =>
                   Done (Reply 200 (JObj [("key", JStr (toString_base64 plaintext))]))
               | Rejected e | Garbled e =>
                   Done (Reply 500 (JObj [("error", JStr "unwrap_failed");
                                          ("detail", JStr (detail e))]))
               end)
      end
  end.

(** [app.get("/status", ...)] *)
Definition status_descriptor : value :=
  JObj [("server_type", JStr "KACLS");
        ("vendor_id", JStr "POC");
        ("version", JStr "2.3.0");
        ("operations_supported", JArr [JStr "wrap"; JStr "unwrap"]);
        ("key_resource", JStr KMS_KEY_RESOURCE)].
End Handlers.

(* ------------------------------------------------------------------ *)
(** ** The Express pipeline *)

(** What [bodyParser.json] finds in a request: no JSON body (no body, or a
    content type other than JSON), a body that parses, a body that is
    declared JSON and does not parse, a JSON body above the limit of 2mb, or
    a JSON body in a charset or content encoding the parser does not
    support. *)
Inductive payload :=
| NoJson
| Json (j : value)
| Malformed
| TooLarge
| Unsupported.

Record request := Request {
  method : string;
  url_path : string;
  origin : option string;
  access_control_request_headers : option string;
  body_payload : payload
}.

(** Who wrote the response: the CORS gate, a route handler, or Express
    itself (no route matched, or an error was passed to [next]). *)
Inductive route := Root | Status | WellKnown | Wrap | Unwrap.
Inductive responder := ByCorsGate | ByRoute (r : route) | ByFramework.

Inductive content :=
| Empty
| JsonBody (j : value)
| FrameworkPage.

Record response := Response {
  status : nat;
  headers : list (string * string);
  body : content;
  sent_by : responder
}.

(** [h || d] on a header value. *)
Definition header_or (h : option string) (d : string) : string :=
  match h with
  | Some s => if (s =? "") then d else s
  | None => d
  end.

Definition default_origin : string := "https://client-side-encryption.google.com".

(** The headers set by the first middleware, lines 20-33. *)
Definition cors_headers (req : request) : list (string * string) :=
  [("Access-Control-Allow-Origin", header_or (origin req) default_origin);
   ("Access-Control-Allow-Credentials", "true");
   ("Vary", "Origin");
   ("Access-Control-Allow-Methods", "GET,POST,OPTIONS,HEAD");
   ("Access-Control-Allow-Headers",
     header_or (access_control_request_headers req)
       "Content-Type, Authorization, X-Requested-With, X-Goog-AuthAssertion, X-Goog-Api-Client, X-Client-Data");
   ("Access-Control-Max-Age", "86400")].

Definition is_preflight (req : request) : bool :=
  (method req =? "OPTIONS") || (method req =? "HEAD").

(** [bodyParser.json({ limit: "2mb" })]: [req.body] is [{}] when there is no
    JSON body; in its default strict mode the parser accepts objects and
    arrays only; on anything else, and on a body it refuses, it passes an
    error to [next] ([None]). *)
Definition body_parser (p : payload) : option value :=
  match p with
  | NoJson => Some (JObj [])
  | Json (JObj es) => Some (JObj es)
  | Json (JArr xs) => Some (JArr xs)
  | Json _ => None
  | Malformed | TooLarge | Unsupported => None
  end.

(** The status of the error the parser passes to [next] when it refuses the
    body: 413 above the limit, 415 for an unsupported charset or encoding,
    400 otherwise. *)
Definition refusal_status (p : payload) : nat :=
  match p with
  | TooLarge => 413
  | Unsupported => 415
  | _ => 400
  end.

Definition lower (c : ascii) : ascii :=
  if in_range "A" "Z" c then ascii_of_N (N_of_ascii c + 32) else c.

Fixpoint lowercase (s : string) : string :=
  match s with
  | EmptyString => ""
  | String c r => String (lower c) (lowercase r)
  end.

Fixpoint drop_final_slash (s : string) : string :=
  match s with
  | EmptyString => ""
  | String c r =>
      match r with
      | EmptyString => if (c =? "/")%char then "" else s
      | _ => String c (drop_final_slash r)
      end
  end.

(** Route matching of Express with its defaults: letter case is ignored and
    one trailing slash is optional. *)
Definition match_route (req : request) : option route :=
  let p := drop_final_slash (lowercase (url_path req)) in
  if (method req =? "GET") then
    if (p =? "") then Some Root
    else if (p =? "/status") then Some Status
    else if (p =? "/.well-known/kacls") then Some WellKnown
    else None
  else if (method req =? "POST") then
    if (p =? "/wrap") then Some Wrap
    else if (p =? "/unwrap") then Some Unwrap
    else None
  else None.

Section App.
Variable KMS_KEY_RESOURCE : string.
Variable kms : kms_call -> outcome.

Definition send (req : request) (r : route) (rep : reply) : response :=
  Response (code rep) (cors_headers req) (JsonBody (json rep)) (ByRoute r).

(** The application: CORS gate, body parser, routes; a request no route
    takes and an error passed to [next] are answered by Express (no error
    middleware is registered).  The routes are those whose locator returns;
    [serve_on] below is the application on a stack of a given size. *)
Definition serve (req : request) : response * list kms_call :=
  if is_preflight req
  then (Response 204 (cors_headers req) Empty ByCorsGate, [])
  else
    match body_parser (body_payload req) with
    | None =>
        (Response (refusal_status (body_payload req)) (cors_headers req)
           FrameworkPage ByFramework, [])
    | Some req_body =>
        match match_route req with
        | Some Root =>
            (send req Root
               (Reply 200 (JObj [("ok", JBool true);
                                 ("tip", JStr "use /status, /wrap, /unwrap")])), [])
        | Some Status =>
            (send req Status (Reply 200 (status_descriptor KMS_KEY_RESOURCE)), [])
        | Some WellKnown =>
            (send req WellKnown
               (Reply 200 (JObj [("ok", JBool true);
                                 ("path", JStr "/.well-known/kacls")])), [])
        | Some Wrap =>
            let (rep, calls) := run kms (wrap KMS_KEY_RESOURCE req_body) in
            (send req Wrap rep, calls)
        | Some Unwrap =>
            let (rep, calls) := run kms (unwrap KMS_KEY_RESOURCE req_body) in
            (send req Unwrap rep, calls)
        | None => (Response 404 (cors_headers req) FrameworkPage ByFramework, [])
        end
    end.
End App.

(** Whether a string occurs in a response body: as part of a string or of a
    property name of the JSON value sent. *)
Fixpoint occurs_in (needle s : string) : bool :=
  String.prefix needle s
  || match s with
     | EmptyString => false
     | String _ r => occurs_in needle r
     end.

Fixpoint mentions (needle : string) (v : value) : bool :=
  match v with
  | JStr s => occurs_in needle s
  | JArr xs => existsb (mentions needle) xs
  | JObj es =>
      existsb (fun kv => occurs_in needle (fst kv) || mentions needle (snd kv)) es
  | _ => false
  end.

Definition body_mentions (needle : string) (r : response) : bool :=
  match body r with
  | JsonBody j => mentions needle j
  | _ => false
  end.

(* ------------------------------------------------------------------ *)
(** ** The call stack *)

(** A call of [pickBase64] returns, or the recursion runs out of stack and a
    [RangeError] is thrown, which nothing catches before the [catch] of the
    route handler. *)
Inductive attempt :=
| Overflow
| Returned (r : option located).

(** A [for] loop that leaves the function at the first iteration that
    produces a result or throws. *)
Fixpoint first_attempt {A} (f : A -> attempt) (l : list A) : attempt :=
  match l with
  | [] => Returned None
  | a :: l' =>
      match f a with
      | Overflow => Overflow
      | Returned (Some r) => Returned (Some r)
      | Returned None => first_attempt f l'
      end
  end.

(** [inner.path = f(inner.path)] on what a recursive call returned. *)
Definition returned_path (f : string -> string) (a : attempt) : attempt :=
  match a with
  | Overflow => Overflow
  | Returned inner => Returned (option_map (map_path f) inner)
  end.

(** The activation of lines 57-86 again, [self] being a recursive call that
    may throw. *)
Section ActivationOnStack.
Variable self : value -> attempt.
Variable preferredKeys : list string.
Variable enableRecursive : bool.

Definition try_preferred_on (body : value) (k : string) : attempt :=
  let v := get body k in
  if looksLikeB64 v then Returned (Some {| key := k; b64 := v; path := k |})
  else if has body k && is_object_type (get body k)
  then returned_path (dot k) (self (get body k))
  else Returned None.

Definition try_element_on (iv : string * value) : attempt :=
  returned_path (bracket (fst iv)) (self (snd iv)).

Definition try_entry_on (kv : string * value) : attempt :=
  let (k, v) := kv in
  if looksLikeB64 v then Returned (Some {| key := k; b64 := v; path := k |})
  else if truthy v && is_object_type v
  then returned_path (dot k) (self v)
  else Returned None.

Definition activation_on (body : value) : attempt :=
  if negb (truthy body) || negb (is_object_type body) then Returned None
  else
    match first_attempt (try_preferred_on body) preferredKeys with
    | Overflow => Overflow
    | Returned (Some r) => Returned (Some r)
    | Returned None =>
        if negb enableRecursive then Returned None
        else if isArray body
             then first_attempt try_element_on (entries body)
             else first_attempt try_entry_on (entries body)
    end.
End ActivationOnStack.

(** [pickBase64] when the stack has room for [frames] nested activations of
    it: a call that needs one more throws. *)
Fixpoint pickBase64_on (frames : nat) (body : value) (preferredKeys : list string)
    (enableRecursive : bool) {struct frames} : attempt :=
  match frames with
  | 0 => Overflow
  | S n =>
      activation_on (fun v => pickBase64_on n v preferredKeys enableRecursive)
        preferredKeys enableRecursive body
  end.

(** The [RangeError] of an exhausted stack. *)
Definition stack_overflow : failure :=
  Failure (JStr "Maximum call stack size exceeded")
    "RangeError: Maximum call stack size exceeded".

(** The two route handlers with their [try]/[catch] around the locator:
    [wrap] and [unwrap] above are the handlers on a stack with room for the
    traversal of the body; with room for [frames] activations only, a
    traversal that needs more ends in the [catch] of the handler. *)
Definition wrap_on (frames : nat) (KMS_KEY_RESOURCE : string) (req_body : value)
    : handler :=
  match pickBase64_on frames req_body wrap_keys true with
  | Overflow =>
      Done (Reply 500 (JObj [("error", JStr "wrap_failed");
                             ("detail", JStr (detail stack_overflow))]))
  | Returned _ => wrap KMS_KEY_RESOURCE req_body
  end.

Definition unwrap_on (frames : nat) (KMS_KEY_RESOURCE : string) (req_body : value)
    : handler :=
  match pickBase64_on frames req_body unwrap_keys true with
  | Overflow =>
      Done (Reply 500 (JObj [("error", JStr "unwrap_failed");
                             ("detail", JStr (detail stack_overflow))]))
  | Returned _ => unwrap KMS_KEY_RESOURCE req_body
  end.

(** The application with these handlers. *)
Definition serve_on (frames : nat) (KMS_KEY_RESOURCE : string)
    (kms : kms_call -> outcome) (req : request) : response * list kms_call :=
  if is_preflight req
  then (Response 204 (cors_headers req) Empty ByCorsGate, [])
  else
    match body_parser (body_payload req) with
    | None =>
        (Response (refusal_status (body_payload req)) (cors_headers req)
           FrameworkPage ByFramework, [])
    | Some req_body =>
        match match_route req with
        | Some Wrap =>
            let (rep, calls) := run kms (wrap_on frames KMS_KEY_RESOURCE req_body) in
            (send req Wrap rep, calls)
        | Some Unwrap =>
            let (rep, calls) := run kms (unwrap_on frames KMS_KEY_RESOURCE req_body) in
            (send req Unwrap rep, calls)
        | _ => serve KMS_KEY_RESOURCE kms req
        end
    end.

(** Nesting of a value: the activations a full traversal needs. *)
Fixpoint nesting (v : value) : nat :=
  match v with
  | JArr xs => S (fold_right (fun x n => Nat.max (nesting x) n) 0 xs)
  | JObj es => S (fold_right (fun kv n => Nat.max (nesting (snd kv)) n) 0 es)
  | _ => 0
  end.

(** The preferred names and the error tag of the two routes. *)
Definition keys_of (r : route) : list string :=
  match r with Unwrap => unwrap_keys | _ => wrap_keys end.

Definition failure_tag (r : route) : string :=
  match r with Unwrap => "unwrap_failed" | _ => "wrap_failed" end.

(* ------------------------------------------------------------------ *)
(** ** Statements about the locator *)

Definition is_container (v : value) : bool :=
  match v with JArr _ | JObj _ => true | _ => false end.

Definition mem (k : string) (l : list string) : bool := existsb (String.eqb k) l.

(** Following the words of the specification (4.1, step 1, and section 8):
    the qualifying strings an object holds under a preferred field name, at
    any nesting depth reachable through preferred names only. *)
Fixpoint preferred_strings (preferredFieldNames : list string) (body : value)
    : list value :=
  match body with
  | JObj es =>
      flat_map
        (fun kv =>
           if mem (fst kv) preferredFieldNames
           then if looksLikeB64 (snd kv) then [snd kv]
                else preferred_strings preferredFieldNames (snd kv)
           else [])
        es
  | _ => []
  end.

(** Section 8, first property, as written: when the body holds a qualifying
    string under a preferred name, the locator returns such a string, not
    one found by structural search. *)
Definition preferred_before_structural (prefs : list string) (body : value) : Prop :=
  preferred_strings prefs body <> [] ->
  exists r, pickBase64 body prefs true = Some r
            /\ In (b64 r) (preferred_strings prefs body).

(** The iteration of the preferred-name loop for [j] produces nothing: the
    value under [j] is no qualifying string and the locator, run in full on
    it, finds nothing in it. *)
Definition yields_nothing (prefs : list string) (rec : bool) (body : value)
    (j : string) : Prop :=
  looksLikeB64 (get body j) = false
  /\ pickBase64 (get body j) prefs rec = None.

(** A candidate reached through preferred names only, every earlier name of
    the list yielding nothing at each level. *)
Inductive PreferredPath (prefs : list string) (rec : bool)
    : value -> located -> Prop :=
| path_here body pre k post :
    prefs = (pre ++ k :: post)%list ->
    is_container body = true ->
    Forall (yields_nothing prefs rec body) pre ->
    looksLikeB64 (get body k) = true ->
    PreferredPath prefs rec body (Located k (get body k) k)
| path_below body pre k post r :
    prefs = (pre ++ k :: post)%list ->
    is_container body = true ->
    Forall (yields_nothing prefs rec body) pre ->
    is_container (get body k) = true ->
    PreferredPath prefs rec (get body k) r ->
    PreferredPath prefs rec body (map_path (dot k) r).

(** Following the words of the specification (4.1, step 2): the qualifying
    string leaves in depth-first order, array elements by index and object
    entries in enumeration order. *)
Fixpoint string_leaves (body : value) : list value :=
  match body with
  | JStr s => if looksLikeB64 (JStr s) then [JStr s] else []
  | JArr xs => flat_map string_leaves xs
  | JObj es => flat_map (fun kv => string_leaves (snd kv)) es
  | _ => []
  end.

(** No property of the body, at any depth, is named by a preferred key. *)
Fixpoint no_preferred_name (prefs : list string) (body : value) : bool :=
  match body with
  | JArr xs =>
      forallb (fun k => negb (mem k prefs)) (map fst (index_keys xs))
      && forallb (no_preferred_name prefs) xs
  | JObj es =>
      forallb (fun kv => negb (mem (fst kv) prefs) && no_preferred_name prefs (snd kv)) es
  | _ => true
  end.

(** A name that is no array index: it does not start with a digit. *)
Definition not_index_like (k : string) : bool :=
  match k with
  | EmptyString => true
  | String c _ => negb (in_range "0" "9" c)
  end.

(** No array of the body, at any depth, has a qualifying string as an
    element. *)
Fixpoint no_string_element (body : value) : bool :=
  match body with
  | JArr xs => forallb (fun v => negb (looksLikeB64 v) && no_string_element v) xs
  | JObj es => forallb (fun kv => no_string_element (snd kv)) es
  | _ => true
  end.

(** A character as it leaves the encoder: no white space, none of the two
    URL-safe characters. *)
Definition wire (c : ascii) : bool :=
  negb (is_space c) && negb (c =? "-")%char && negb (c =? "_")%char.

Fixpoint all_chars (p : ascii -> bool) (s : string) : bool :=
  match s with
  | EmptyString => true
  | String c r => p c && all_chars p r
  end.

(* ------------------------------------------------------------------ *)
(** ** Statements about the routes *)

(** A POST request carrying the JSON value [j]. *)
Definition post (path : string) (j : value) : request :=
  Request "POST" path None None (Json j).

(** Section 8, the round-trip scenario, as written: with a deterministic
    provider whose decrypt inverts its encrypt, wrapping [{ key: base64(b) }]
    (of length at least 8) answers 200 with a [wrapped_key] and unwrapping
    that answers 200 with [{ key: base64(b) }]. *)
Definition round_trip_as_written : Prop :=
  forall (kr : string) (kms : kms_call -> outcome),
    (forall b, exists ct,
        kms (Encrypt kr b) = Resolved ct /\ kms (Decrypt kr ct) = Resolved b) ->
    forall b, 8 <= String.length (toString_base64 b) ->
    exists w,
      fst (serve kr kms (post "/wrap" (JObj [("key", JStr (toString_base64 b))])))
      = send (post "/wrap" (JObj [("key", JStr (toString_base64 b))])) Wrap
          (Reply 200 (JObj [("wrapped_key", JStr w)]))
      /\ fst (serve kr kms (post "/unwrap" (JObj [("wrapped_key", JStr w)])))
         = send (post "/unwrap" (JObj [("wrapped_key", JStr w)])) Unwrap
             (Reply 200 (JObj [("key", JStr (toString_base64 b))])).

Fixpoint buffer_eqb (a b : Buffer) : bool :=
  match a, b with
  | [], [] => true
  | x :: a', y :: b' => (x =? y)%char && buffer_eqb a' b'
  | _, _ => false
  end.

(** A deterministic provider whose decrypt inverts its encrypt and whose
    ciphertext for the bytes of "Hello" is the single byte 01. *)
Definition short_cipher (c : kms_call) : outcome :=
  match c with
  | Encrypt _ plaintext =>
      if buffer_eqb plaintext (list_ascii_of_string "Hello")
      then Resolved [one]
      else Resolved (zero :: plaintext)
  | Decrypt _ ciphertext =>
      if buffer_eqb ciphertext [one]
      then Resolved (list_ascii_of_string "Hello")
      else Resolved (tl ciphertext)
  end.

Definition header (name : string) (r : response) : option string :=
  assoc name (headers r).

(** Data model, KeyResource, as written: the key-resource identifier occurs
    in no response body. *)
Definition key_resource_never_in_body : Prop :=
  forall kr kms req, body_mentions kr (fst (serve kr kms req)) = false.

(** 4.4, wrap algorithm, step 1, as written: a body that fails to parse is
    handled as an empty object, the handler reporting the missing field. *)
Definition parse_failure_as_empty_object : Prop :=
  forall kr kms req,
    match_route req = Some Wrap ->
    body_payload req = Malformed ->
    serve kr kms req
    = (send req Wrap
         (Reply 400 (JObj [("error", JStr "missing DEK (base64)");
                           ("received_keys", JArr [])])), []).

(** 4.3, as written: a preflight is answered 204 by the gate, with the
    [Origin] of the request echoed when present and the default otherwise. *)
Definition preflight_echoes_origin : Prop :=
  forall kr kms req,
    is_preflight req = true ->
    let r := fst (serve kr kms req) in
    status r = 204 /\ body r = Empty /\ sent_by r = ByCorsGate
    /\ header "Access-Control-Allow-Origin" r
       = Some (match origin req with Some o => o | None => default_origin end)
    /\ header "Vary" r = Some "Origin"
    /\ header "Access-Control-Max-Age" r = Some "86400".

(* ------------------------------------------------------------------ *)
(** ** Statements about where a candidate lies *)

(** One step of a path: into the property [k] of an object (or of an array,
    through a preferred name), or into the element [i] of an array. *)
Inductive segment :=
| Field (k : string)
| Index (i : string).

(** The path string [pickBase64] builds for the steps [segs] down to the
    property [leaf]. *)
Fixpoint locator (segs : list segment) (leaf : string) : string :=
  match segs with
  | [] => leaf
  | Field k :: rest => dot k (locator rest leaf)
  | Index i :: rest => bracket i (locator rest leaf)
  end.

(** [Holds body segs k v]: following [segs] from [body] leads to a value one
    of whose own properties is [k], with value [v]. *)
Inductive Holds : value -> list segment -> string -> value -> Prop :=
| holds_here body k v :
    In (k, v) (entries body) -> Holds body [] k v
| holds_field body k child segs k' v :
    In (k, child) (entries body) ->
    Holds child segs k' v ->
    Holds body (Field k :: segs) k' v
| holds_index xs i child segs k' v :
    In (i, child) (entries (JArr xs)) ->
    Holds child segs k' v ->
    Holds (JArr xs) (Index i :: segs) k' v.

(** Some object of the body, at any depth, has a property whose value is a
    qualifying string. *)
Fixpoint held_in_field (body : value) : bool :=
  match body with
  | JObj es => existsb (fun kv => looksLikeB64 (snd kv) || held_in_field (snd kv)) es
  | JArr xs => existsb held_in_field xs
  | _ => false
  end.

(* ------------------------------------------------------------------ *)
(** ** Spellings of a base64 text *)

(** The URL-safe spelling: [-] for [+] and [_] for [/]. *)
Definition to_urlsafe (s : string) : string :=
  replace_all "/" "_" (replace_all "+" "-" s).

(** What [to_urlsafe] does to one character. *)
Definition url_char (c : ascii) : ascii :=
  let c' := if (c =? "+")%char then "-"%char else c in
  if (c' =? "/")%char then "_"%char else c'.

(** What the two replacements of [b64urlToBuf] do to one character. *)
Definition std_char (c : ascii) : ascii :=
  let c' := if (c =? "-")%char then "+"%char else c in
  if (c' =? "_")%char then "/"%char else c'.

Definition no_space (c : ascii) : bool := negb (is_space c).

(** The text without its trailing [=] characters. *)
Fixpoint unpadded (s : string) : string :=
  match s with
  | EmptyString => ""
  | String c r =>
      match unpadded r with
      | EmptyString => if (c =? "=")%char then "" else String c ""
      | r' => String c r'
      end
  end.

(** The four spellings of a base64 text: standard or URL-safe alphabet, with
    or without padding. *)
Definition spelling (urlsafe padded : bool) (s : string) : string :=
  let s' := if padded then s else unpadded s in
  if urlsafe then to_urlsafe s' else s'.

(* ------------------------------------------------------------------ *)
(** ** Startup and the replies of the routes *)




(** What each route replies once the provider has answered. *)
Definition wrap_reply (resp : outcome) : reply :=
  match resp with
  | Resolved ciphertext =>
      Reply 200 (JObj [("wrapped_key", JStr (toString_base64 ciphertext))])
  | Rejected e | Garbled e =>
      Reply 500 (JObj [("error", JStr "wrap_failed"); ("detail", JStr (detail e))])
  end.

Definition unwrap_reply (resp : outcome) : reply :=
  match resp with
  | Resolved plaintext =>
      Reply 200 (JObj [("key", JStr (toString_base64 plaintext))])
  | Rejected e | Garbled e =>
      Reply 500 (JObj [("error", JStr "unwrap_failed"); ("detail", JStr (detail e))])
  end.

(** The replies of the wrap route when no candidate is found. *)
Definition noop_reply (reason : value) : reply :=
  Reply 200 (JObj [("ok", JBool true);
                   ("note", JStr "noop (error envelope)");
                   ("reason", reason)]).

Definition missing_reply (error : string) (req_body : value) : reply :=
  Reply 400 (JObj [("error", JStr error);
                   ("received_keys", JArr (map JStr (Object_keys req_body)))]).

(** The list of headers the gate allows when the request names none. *)
Definition default_allow_headers : string :=
  "Content-Type, Authorization, X-Requested-With, X-Goog-AuthAssertion, X-Goog-Api-Client, X-Client-Data".

(** The provider call of a route on the decoded bytes. *)
Definition call_of (r : route) (name : string) (data : Buffer) : kms_call :=
  match r with
  | Unwrap => Decrypt name data
  | _ => Encrypt name data
  end.

(** The names of the top-level properties of a body, read off the value:
    the field names of an object in their order, the indices of an array. *)
Definition top_level_names (body : value) : list string :=
  match body with
  | JObj es => map fst es
  | JArr xs => map index_key (seq 0 (List.length xs))
  | _ => []
  end.

(** Implicit property of lines 56-57 and 111-116, as written: POST /wrap
    with a body that is not an object or array gets the missing-candidate
    response of the handler. *)
Definition non_object_body_reported_missing : Prop :=
  forall frames kr kms body,
    is_container body = false ->
    exists keys,
      fst (serve_on frames kr kms (post "/wrap" body))
      = Response 400 (cors_headers (post "/wrap" body))
          (JsonBody (JObj [("error", JStr "missing DEK (base64)");
                           ("received_keys", keys)]))
          (ByRoute Wrap).


(* ================================================================== *)
(** * Properties *)

(* ------------------------------------------------------------------ *)
(** ** The equation of pickBase64 *)

Lemma assoc_map A B (f : A -> B) k (l : list (string * A)) :
  assoc k (map (fun kv => (fst kv, f (snd kv))) l) = option_map f (assoc k l).
Proof.
  induction l as [|[k' a] l IH]; simpl; [reflexivity|].
  destruct (k =? k'); [reflexivity | exact IH].
Qed.

Lemma combine_map_r A B C (f : B -> C) (ks : list A) (xs : list B) :
  combine ks (map f xs) = map (fun kv => (fst kv, f (snd kv))) (combine ks xs).
Proof.
  revert ks; induction xs as [|x xs IH]; intros [|k ks]; simpl; try reflexivity.
  now rewrite IH.
Qed.

Lemma index_keys_map A B (f : A -> B) (xs : list A) :
  index_keys (map f xs) = map (fun kv => (fst kv, f (snd kv))) (index_keys xs).
Proof.
  unfold index_keys. rewrite length_map. apply combine_map_r.
Qed.

Lemma first_some_map A B C (g : B -> option C) (h : A -> B) (l : list A) :
  first_some g (map h l) = first_some (fun a => g (h a)) l.
Proof.
  induction l as [|a l IH]; simpl; [reflexivity|].
  destruct (g (h a)); [reflexivity | exact IH].
Qed.

Lemma first_some_ext A B (f g : A -> option B) (l : list A) :
  (forall a, In a l -> f a = g a) -> first_some f l = first_some g l.
Proof.
  induction l as [|a l IH]; simpl; intros H; [reflexivity|].
  rewrite (H a) by now left.
  destruct (g a); [reflexivity|]. apply IH. intros; apply H; now right.
Qed.

Lemma first_some_app A B (f : A -> option B) (l1 l2 : list A) :
  first_some f (l1 ++ l2)%list =
  match first_some f l1 with Some b => Some b | None => first_some f l2 end.
Proof.
  induction l1 as [|a l1 IH]; simpl; [reflexivity|].
  destruct (f a); [reflexivity | exact IH].
Qed.

Lemma first_some_none A B (f : A -> option B) (l : list A) :
  (forall a, In a l -> f a = None) -> first_some f l = None.
Proof.
  induction l as [|a l IH]; simpl; intros H; [reflexivity|].
  rewrite (H a) by now left. apply IH. intros; apply H; now right.
Qed.

(** The activation on a table built from the properties of [body] is the
    activation of the source. *)
Lemma node_activation self prefs rec body :
  truthy body = true -> is_object_type body = true ->
  node prefs rec (isArray body)
    (map (fun kv => (fst kv, (snd kv, self (snd kv)))) (entries body))
  = activation self prefs rec body.
Proof.
  intros Ht Ho. unfold activation, node. rewrite Ht, Ho. simpl.
  rewrite (first_some_ext (node_preferred _) (try_preferred self body)).
  2:{ intros k _. unfold node_preferred, try_preferred, get, has.
      rewrite (assoc_map (fun v => (v, self v))).
      destruct (assoc k (entries body)) as [v|]; simpl; reflexivity. }
  destruct (first_some (try_preferred self body) prefs); [reflexivity|].
  destruct (negb rec); [reflexivity|].
  destruct (isArray body).
  - rewrite first_some_map. apply first_some_ext. intros [k v] _. reflexivity.
  - rewrite first_some_map. apply first_some_ext. intros [k v] _. reflexivity.
Qed.

(** [pickBase64] satisfies the equation of the source. *)
Lemma pickBase64_unfold body prefs rec :
  pickBase64 body prefs rec
  = activation (fun v => pickBase64 v prefs rec) prefs rec body.
Proof.
  destruct body as [| |b|n|s|xs|es]; try reflexivity.
  - unfold activation; simpl. now rewrite orb_true_r.
  - unfold activation; simpl. now rewrite orb_true_r.
  - unfold activation; simpl. now rewrite orb_true_r.
  - rewrite <- node_activation by reflexivity. simpl.
    rewrite (index_keys_map (fun v => (v, pickBase64 v prefs rec))). reflexivity.
  - rewrite <- node_activation by reflexivity. reflexivity.
Qed.

Lemma first_some_some A B (f : A -> option B) (l : list A) b :
  first_some f l = Some b -> exists a, In a l /\ f a = Some b.
Proof.
  induction l as [|a l IH]; simpl; [discriminate|].
  destruct (f a) as [b'|] eqn:E.
  - intros [= <-]. exists a; auto.
  - intros H. destruct (IH H) as (a' & Hin & Ha'). exists a'; auto.
Qed.

Lemma assoc_In A k (l : list (string * A)) a :
  assoc k l = Some a -> In (k, a) l.
Proof.
  induction l as [|[k' a'] l IH]; simpl; [discriminate|].
  destruct (k =? k') eqn:E.
  - apply String.eqb_eq in E. intros [= <-]. left; now subst.
  - intros H; right; auto.
Qed.

Lemma assoc_absent A k (l : list (string * A)) :
  (forall k' a, In (k', a) l -> k' <> k) -> assoc k l = None.
Proof.
  induction l as [|[k' a'] l IH]; simpl; intros H; [reflexivity|].
  destruct (k =? k') eqn:E.
  - apply String.eqb_eq in E. exfalso. apply (H k' a'); auto.
  - apply IH. intros k2 a2 Hin. apply (H k2 a2). now right.
Qed.

Lemma index_keys_In A (xs : list A) k x :
  In (k, x) (index_keys xs) -> In x xs /\ exists i, k = index_key i.
Proof.
  unfold index_keys. intros H. split.
  - eapply in_combine_r; eauto.
  - apply in_combine_l in H. apply in_map_iff in H.
    destruct H as (i & <- & _). now exists i.
Qed.

(** What holds of every result of the recursive calls on the properties of
    [body], of every qualifying property value and is kept by a change of
    path, holds of the result of the activation. *)
Lemma activation_inv (P : located -> Prop) self prefs rec body r :
  (forall k v, looksLikeB64 v = true -> P (Located k v k)) ->
  (forall f r', P r' -> P (map_path f r')) ->
  (forall k v r', In (k, v) (entries body) -> self v = Some r' -> P r') ->
  activation self prefs rec body = Some r -> P r.
Proof.
  intros Hleaf Hpath Hself. unfold activation.
  destruct (negb (truthy body) || negb (is_object_type body)); [discriminate|].
  destruct (first_some (try_preferred self body) prefs) as [r1|] eqn:E1.
  - intros [= <-]. apply first_some_some in E1. destruct E1 as (k & _ & Hk).
    unfold try_preferred, has, get in Hk.
    destruct (assoc k (entries body)) as [v|] eqn:Ea; simpl in Hk.
    + destruct (looksLikeB64 v) eqn:El.
      * injection Hk as <-. now apply Hleaf.
      * destruct (is_object_type v); [|discriminate].
        destruct (self v) as [r'|] eqn:Es; [|discriminate].
        injection Hk as <-. apply Hpath. eapply Hself; eauto using assoc_In.
    + discriminate.
  - destruct (negb rec); [discriminate|].
    destruct (isArray body).
    + intros H. apply first_some_some in H. destruct H as ([k v] & Hin & Hk).
      unfold try_element in Hk; simpl in Hk.
      destruct (self v) as [r'|] eqn:Es; [|discriminate].
      injection Hk as <-. apply Hpath. eapply Hself; eauto.
    + intros H. apply first_some_some in H. destruct H as ([k v] & Hin & Hk).
      unfold try_entry in Hk.
      destruct (looksLikeB64 v) eqn:El.
      * injection Hk as <-. now apply Hleaf.
      * destruct (truthy v && is_object_type v); [|discriminate].
        destruct (self v) as [r'|] eqn:Es; [|discriminate].
        injection Hk as <-. apply Hpath. eapply Hself; eauto.
Qed.

(** The same, for [pickBase64] itself. *)
Lemma pickBase64_inv (P : located -> Prop) :
  (forall k v, looksLikeB64 v = true -> P (Located k v k)) ->
  (forall f r', P r' -> P (map_path f r')) ->
  forall body prefs rec r, pickBase64 body prefs rec = Some r -> P r.
Proof.
  intros Hleaf Hpath body prefs rec.
  induction body as [| |b|n|s|xs IH|es IH] using value_nested_ind;
    try (intros r; simpl; discriminate).
  - intros r. rewrite pickBase64_unfold.
    apply activation_inv; auto. simpl. intros k v r' Hin.
    apply index_keys_In in Hin. destruct Hin as [Hin _].
    rewrite Forall_forall in IH. now apply IH.
  - intros r. rewrite pickBase64_unfold.
    apply activation_inv; auto. simpl. intros k v r' Hin.
    rewrite Forall_forall in IH. apply (IH (k, v) Hin).
Qed.

(** Every candidate returned by the locator passed [looksLikeB64], so it is
    a string. *)
Lemma pickBase64_qualifies body prefs rec r :
  pickBase64 body prefs rec = Some r -> looksLikeB64 (b64 r) = true.
Proof.
  apply (pickBase64_inv (fun r => looksLikeB64 (b64 r) = true)); auto.
Qed.

Lemma looksLikeB64_string v :
  looksLikeB64 v = true -> exists s, v = JStr s.
Proof. destruct v; try discriminate. intros _. now eexists. Qed.

(* ------------------------------------------------------------------ *)
(** ** Preferred names (C1) *)

Lemma container_activates body :
  is_container body = true ->
  negb (truthy body) || negb (is_object_type body) = false.
Proof. destruct body; try discriminate; reflexivity. Qed.

Lemma yields_nothing_try prefs rec body j :
  yields_nothing prefs rec body j ->
  try_preferred (fun v => pickBase64 v prefs rec) body j = None.
Proof.
  intros [Hl Hp]. unfold try_preferred. rewrite Hl, Hp.
  now destruct (has body j && is_object_type (get body j)).
Qed.

Lemma container_has body k :
  is_container (get body k) = true -> has body k = true.
Proof.
  unfold get, has. destruct (assoc k (entries body)); [reflexivity|discriminate].
Qed.

Lemma container_object_type v :
  is_container v = true -> is_object_type v = true.
Proof. destruct v; try discriminate; reflexivity. Qed.

Lemma container_not_b64 v : is_container v = true -> looksLikeB64 v = false.
Proof. destruct v; try discriminate; reflexivity. Qed.

(** The preferred-name loop stops at the first name that produces a
    candidate; the structural pass is not run. *)
Lemma preferred_loop_stops prefs rec body pre k post r :
  prefs = (pre ++ k :: post)%list ->
  is_container body = true ->
  Forall (yields_nothing prefs rec body) pre ->
  try_preferred (fun v => pickBase64 v prefs rec) body k = Some r ->
  pickBase64 body prefs rec = Some r.
Proof.
  intros Hp Hc Hpre Hk. subst prefs. rewrite pickBase64_unfold. unfold activation.
  rewrite (container_activates _ Hc).
  rewrite first_some_app.
  rewrite first_some_none.
  2:{ intros j Hj. apply yields_nothing_try.
      rewrite Forall_forall in Hpre. now apply Hpre. }
  simpl. now rewrite Hk.
Qed.

(** C1, amended.  A candidate reached through preferred names, every earlier
    preferred name yielding nothing under the full locator at each level, is
    what [pickBase64] returns: the structural pass of the body is not
    consulted, and the later preferred names and the other fields do not
    matter. *)
Theorem pickBase64_preferred_first prefs rec body r :
  PreferredPath prefs rec body r -> pickBase64 body prefs rec = Some r.
Proof.
  induction 1 as [body pre k post Hp Hc Hpre Hk
                 |body pre k post r Hp Hc Hpre Hk _ IH].
  - eapply preferred_loop_stops; eauto.
    unfold try_preferred. now rewrite Hk.
  - eapply preferred_loop_stops; eauto.
    unfold try_preferred.
    rewrite (container_not_b64 _ Hk), (container_has _ _ Hk),
      (container_object_type _ Hk), IH. reflexivity.
Qed.

(** A later preferred name holds a qualifying string and an earlier one an
    object: the nested string under the earlier name wins. *)
Lemma pickBase64_preferred_first_witness :
  pickBase64
    (JObj [("zzz", JStr "CCCCCCCC");
           ("data", JStr "BBBBBBBB");
           ("dek", JObj [("x", JNum 1); ("plaintext", JStr "AAAAAAAA")])])
    wrap_keys true
  = Some (Located "plaintext" (JStr "AAAAAAAA") "dek.plaintext").
Proof.
  apply (pickBase64_preferred_first (prefs := wrap_keys) (rec := true)
           (body := JObj [("zzz", JStr "CCCCCCCC");
                          ("data", JStr "BBBBBBBB");
                          ("dek", JObj [("x", JNum 1);
                                        ("plaintext", JStr "AAAAAAAA")])])
           (r := map_path (dot "dek")
                   (Located "plaintext" (JStr "AAAAAAAA") "plaintext"))).
  apply (@path_below wrap_keys true _
           ["key"; "key_to_wrap_b64"; "keyToWrapB64"; "keyToWrap"] "dek"
           ["plaintext_b64"; "plaintext"; "data"]).
  - reflexivity.
  - reflexivity.
  - repeat constructor.
  - reflexivity.
  - apply (@path_here wrap_keys true
             (JObj [("x", JNum 1); ("plaintext", JStr "AAAAAAAA")])
             ["key"; "key_to_wrap_b64"; "keyToWrapB64"; "keyToWrap"; "dek";
              "plaintext_b64"] "plaintext" ["data"]).
    + reflexivity.
    + reflexivity.
    + repeat constructor.
    + reflexivity.
Defined.

(** C1 as written fails: [key] holds an object in which only the structural
    pass finds a string, and that string is returned although [dek], a
    preferred name, holds a qualifying string. *)
Lemma preferred_before_structural_counterexample :
  ~ preferred_before_structural wrap_keys
      (JObj [("key", JObj [("zzz", JStr "AAAAAAAA")]); ("dek", JStr "BBBBBBBB")]).
Proof.
  intros H. destruct H as (r & Hr & Hin).
  - discriminate.
  - vm_compute in Hr. injection Hr as <-. vm_compute in Hin.
    destruct Hin as [Hin|[]]. discriminate.
Qed.

(* ------------------------------------------------------------------ *)
(** ** Strings have no [reason] *)

Lemma index_key_not_reason i : index_key i <> "reason".
Proof.
  unfold index_key. destruct (Nat.to_uint i); simpl; discriminate.
Qed.

Lemma get_reason_of_string s : get (JStr s) "reason" = JUndef.
Proof.
  unfold get. rewrite assoc_absent; [reflexivity|].
  simpl. intros k' a Hin. apply index_keys_In in Hin.
  destruct Hin as (_ & i & ->). apply index_key_not_reason.
Qed.

(* ------------------------------------------------------------------ *)
(** ** The structural pass (C2) *)

Lemma map_snd_combine A B (ks : list A) (xs : list B) :
  List.length ks = List.length xs -> map snd (combine ks xs) = xs.
Proof.
  revert ks; induction xs as [|x xs IH]; intros [|k ks]; simpl;
    try reflexivity; try discriminate.
  intros [= H]. now rewrite IH.
Qed.

Lemma map_snd_index_keys A (xs : list A) : map snd (index_keys xs) = xs.
Proof.
  unfold index_keys. apply map_snd_combine.
  now rewrite length_map, length_seq.
Qed.

Lemma flat_map_snd A B C (f : B -> list C) (l : list (A * B)) :
  flat_map (fun kv => f (snd kv)) l = flat_map f (map snd l).
Proof.
  induction l as [|kv l IH]; simpl; [reflexivity|]. now rewrite IH.
Qed.

Lemma hd_error_app A (l1 l2 : list A) :
  hd_error (l1 ++ l2)%list
  = match hd_error l1 with Some a => Some a | None => hd_error l2 end.
Proof. destruct l1; reflexivity. Qed.

Lemma no_preferred_absent prefs (l : list (string * value)) k :
  forallb (fun k' => negb (mem k' prefs)) (map fst l) = true ->
  In k prefs -> assoc k l = None.
Proof.
  intros Hall Hin. apply assoc_absent. intros k' a Hl ->.
  rewrite forallb_forall in Hall.
  assert (Hk : negb (mem k prefs) = true).
  { apply Hall. apply in_map_iff. now exists (k, a). }
  apply negb_true_iff in Hk. unfold mem in Hk.
  assert (existsb (String.eqb k) prefs = true).
  { apply existsb_exists. exists k. split; [assumption|apply String.eqb_refl]. }
  congruence.
Qed.

Lemma preferred_pass_idle self prefs body :
  forallb (fun k' => negb (mem k' prefs)) (map fst (entries body)) = true ->
  first_some (try_preferred self body) prefs = None.
Proof.
  intros H. apply first_some_none. intros k Hk.
  unfold try_preferred, get, has.
  now rewrite (no_preferred_absent _ _ _ H Hk).
Qed.

Lemma container_entry_recursed v :
  is_container v = true -> truthy v && is_object_type v = true.
Proof. destruct v; try discriminate; reflexivity. Qed.

Lemma pickBase64_leaf body prefs rec :
  is_container body = false -> pickBase64 body prefs rec = None.
Proof. destruct body; try discriminate; reflexivity. Qed.

(** Result of one loop of the structural pass against the leaves of the
    properties scanned. *)
Lemma scan_leaves (self : value -> option located)
    (try_one : string * value -> option located) (l : list (string * value)) :
  (forall kv, In kv l ->
     option_map b64 (try_one kv) = hd_error (string_leaves (snd kv))) ->
  option_map b64 (first_some try_one l)
  = hd_error (flat_map (fun kv => string_leaves (snd kv)) l).
Proof.
  induction l as [|kv l IH]; intros H; simpl; [reflexivity|].
  rewrite hd_error_app, <- (H kv) by now left.
  destruct (try_one kv); simpl; [reflexivity|].
  apply IH. intros; apply H; now right.
Qed.

(** X3.  The structural pass alone: where no property is named by a preferred key
    and no array has a qualifying string as an element, the locator returns
    the first qualifying string leaf in depth-first order. *)
Lemma pickBase64_depth_first prefs body :
  looksLikeB64 body = false ->
  no_preferred_name prefs body = true ->
  no_string_element body = true ->
  option_map b64 (pickBase64 body prefs true) = hd_error (string_leaves body).
Proof.
  induction body as [| |b|n|s|xs IH|es IH] using value_nested_ind;
    intros Hb Hp Hs; try reflexivity.
  - simpl in Hb. simpl. now rewrite Hb.
  - rewrite pickBase64_unfold. unfold activation. simpl negb. simpl orb.
    cbv iota. simpl in Hp. apply andb_true_iff in Hp. destruct Hp as [Hk Hp].
    rewrite preferred_pass_idle by exact Hk. simpl.
    rewrite <- (map_snd_index_keys xs) at 2. rewrite <- flat_map_snd.
    apply (scan_leaves (fun v => pickBase64 v prefs true)).
    intros [k v] Hin. apply index_keys_In in Hin. destruct Hin as [Hin _].
    unfold try_element. simpl.
    rewrite Forall_forall in IH. rewrite forallb_forall in Hp.
    simpl in Hs. rewrite forallb_forall in Hs.
    specialize (Hs v Hin). apply andb_true_iff in Hs. destruct Hs as [Hv Hs].
    apply negb_true_iff in Hv.
    rewrite <- (IH v Hin Hv (Hp v Hin) Hs).
    now destruct (pickBase64 v prefs true).
  - rewrite pickBase64_unfold. unfold activation. simpl negb. simpl orb.
    cbv iota. simpl in Hp. rewrite forallb_forall in Hp.
    rewrite preferred_pass_idle.
    2:{ simpl. apply forallb_forall. intros k Hk. apply in_map_iff in Hk.
        destruct Hk as (kv & <- & Hkv). specialize (Hp kv Hkv).
        now apply andb_true_iff in Hp. }
    simpl.
    apply (scan_leaves (fun v => pickBase64 v prefs true)).
    intros [k v] Hin. unfold try_entry. simpl.
    rewrite Forall_forall in IH. simpl in Hs. rewrite forallb_forall in Hs.
    specialize (Hp (k, v) Hin). apply andb_true_iff in Hp. simpl in Hp.
    destruct (looksLikeB64 v) eqn:Hv.
    + destruct v; try discriminate. simpl in Hv. simpl. now rewrite Hv.
    + pose proof (IH (k, v) Hin Hv (proj2 Hp) (Hs (k, v) Hin)) as E.
      simpl snd in E. rewrite <- E.
      destruct (is_container v) eqn:Hc.
      * rewrite (container_entry_recursed _ Hc).
        now destruct (pickBase64 v prefs true).
      * rewrite (pickBase64_leaf _ prefs true Hc).
        now destruct (truthy v && is_object_type v).
Qed.

Lemma index_key_starts_with_digit i :
  match index_key i with
  | EmptyString => False
  | String c _ => in_range "0" "9" c = true
  end.
Proof.
  unfold index_key. destruct (Nat.to_uint i); simpl; reflexivity.
Qed.

Lemma array_preferred_idle self prefs xs :
  forallb not_index_like prefs = true ->
  first_some (try_preferred self (JArr xs)) prefs = None.
Proof.
  intros Hp. apply first_some_none. intros k Hk.
  rewrite forallb_forall in Hp. specialize (Hp k Hk).
  unfold try_preferred, get, has. rewrite assoc_absent; [reflexivity|].
  simpl. intros k' a Hin <-. apply index_keys_In in Hin.
  destruct Hin as (_ & i & ->).
  pose proof (index_key_starts_with_digit i) as Hd.
  unfold not_index_like in Hp. destruct (index_key i) as [|c r]; [exact Hd|].
  rewrite Hd in Hp. discriminate.
Qed.

(** C2: the array branch of the structural pass never tests a string
    element.  In an array none of whose elements is an object or an array
    the locator finds nothing, whatever strings the array holds (the
    preferred names being no array indices, as those of both routes). *)
Theorem pickBase64_array_elements_skipped prefs xs :
  forallb not_index_like prefs = true ->
  Forall (fun v => is_container v = false) xs ->
  pickBase64 (JArr xs) prefs true = None.
Proof.
  intros Hp Hxs. rewrite pickBase64_unfold. unfold activation.
  cbn [truthy is_object_type typeof negb orb isArray].
  rewrite (array_preferred_idle _ _ xs Hp).
  apply first_some_none. intros [k v] Hin. unfold try_element. cbn [fst snd].
  apply index_keys_In in Hin. destruct Hin as [Hin _].
  rewrite Forall_forall in Hxs.
  now rewrite (pickBase64_leaf v prefs true (Hxs v Hin)).
Qed.

(** The body [["QUFBQUFBQUE="]]: its only leaf qualifies and is not found. *)
Lemma pickBase64_array_elements_skipped_witness :
  pickBase64 (JArr [JStr "QUFBQUFBQUE="]) wrap_keys true = None.
Proof.
  apply (@pickBase64_array_elements_skipped wrap_keys [JStr "QUFBQUFBQUE="]).
  - reflexivity.
  - repeat constructor.
Defined.

(** The same string is the first leaf of the body in depth-first order; it
    is missed as an array element, also below an object, and found as the
    value of an object entry. *)
Lemma pickBase64_array_element_examples :
  no_preferred_name wrap_keys (JArr [JStr "QUFBQUFBQUE="]) = true
  /\ string_leaves (JArr [JStr "QUFBQUFBQUE="]) = [JStr "QUFBQUFBQUE="]
  /\ pickBase64 (JObj [("items", JArr [JStr "QUFBQUFBQUE="])]) wrap_keys true = None
  /\ pickBase64 (JObj [("items", JObj [("0", JStr "QUFBQUFBQUE=")])]) wrap_keys true
     = Some (Located "0" (JStr "QUFBQUFBQUE=") "items.0")
  /\ serve "k" (fun _ => Resolved []) (post "/wrap" (JArr [JStr "QUFBQUFBQUE="]))
     = (send (post "/wrap" (JArr [JStr "QUFBQUFBQUE="])) Wrap
          (Reply 400 (JObj [("error", JStr "missing DEK (base64)");
                            ("received_keys", JArr [JStr "0"])])), []).
Proof. repeat split. Qed.

(* ------------------------------------------------------------------ *)
(** ** The base64 codec *)

Lemma list_ind3 A (P : list A -> Prop) :
  P [] -> (forall a, P [a]) -> (forall a b, P [a; b]) ->
  (forall a b c l, P l -> P (a :: b :: c :: l)) ->
  forall l, P l.
Proof.
  intros H0 H1 H2 H3. fix IH 1.
  intros [|a [|b [|c l]]];
    [exact H0 | apply H1 | apply H2 | apply H3; apply IH].
Qed.

(** Case analysis on the bits of every byte in the context. *)
Ltac split_bytes :=
  repeat match goal with
         | a : ascii |- _ => destruct a as [? ? ? ? ? ? ? ?]
         end.

Lemma b64char_facts b0 b1 b2 b3 b4 b5 :
  let x := Ascii b0 b1 b2 b3 b4 b5 false false in
  unbase64 (b64char x) = Some x
  /\ (b64char x =? "=")%char = false
  /\ b64_class (b64char x) = true
  /\ wire (b64char x) = true.
Proof.
  destruct b0, b1, b2, b3, b4, b5; vm_compute; auto.
Qed.

Lemma sextets_b64char b0 b1 b2 b3 b4 b5 r :
  sextets (String (b64char (Ascii b0 b1 b2 b3 b4 b5 false false)) r)
  = Ascii b0 b1 b2 b3 b4 b5 false false :: sextets r.
Proof.
  destruct (b64char_facts b0 b1 b2 b3 b4 b5) as (Hu & He & _).
  cbn [sextets]. now rewrite He, Hu.
Qed.

(** [Buffer.from(buf.toString("base64"), "base64")] gives [buf] back. *)
Lemma base64_round_trip buf : Buffer_from_base64 (toString_base64 buf) = buf.
Proof.
  unfold Buffer_from_base64.
  induction buf as [|a|a b|a b c l IH] using list_ind3.
  - reflexivity.
  - split_bytes.
    cbn [toString_base64 sextets_of_bytes zero].
    rewrite !sextets_b64char. reflexivity.
  - split_bytes.
    cbn [toString_base64 sextets_of_bytes zero].
    rewrite !sextets_b64char. reflexivity.
  - split_bytes.
    cbn [toString_base64 sextets_of_bytes].
    rewrite !sextets_b64char. cbn [bytes bytes_of_sextets]. now rewrite IH.
Qed.

Lemma toString_base64_wire buf : all_chars wire (toString_base64 buf) = true.
Proof.
  induction buf as [|a|a b|a b c l IH] using list_ind3.
  - reflexivity.
  - split_bytes.
    cbn [toString_base64 sextets_of_bytes zero all_chars].
    now rewrite !(proj2 (proj2 (proj2 (b64char_facts _ _ _ _ _ _)))).
  - split_bytes.
    cbn [toString_base64 sextets_of_bytes zero all_chars].
    now rewrite !(proj2 (proj2 (proj2 (b64char_facts _ _ _ _ _ _)))).
  - split_bytes.
    cbn [toString_base64 sextets_of_bytes all_chars].
    now rewrite !(proj2 (proj2 (proj2 (b64char_facts _ _ _ _ _ _)))), IH.
Qed.

Lemma toString_base64_class buf : class_then_pad (toString_base64 buf) = true.
Proof.
  induction buf as [|a|a b|a b c l IH] using list_ind3.
  - reflexivity.
  - split_bytes.
    cbn [toString_base64 sextets_of_bytes zero class_then_pad].
    now rewrite !(proj1 (proj2 (proj2 (b64char_facts _ _ _ _ _ _)))).
  - split_bytes.
    cbn [toString_base64 sextets_of_bytes zero class_then_pad].
    now rewrite !(proj1 (proj2 (proj2 (b64char_facts _ _ _ _ _ _)))).
  - split_bytes.
    cbn [toString_base64 sextets_of_bytes class_then_pad].
    now rewrite !(proj1 (proj2 (proj2 (b64char_facts _ _ _ _ _ _)))), IH.
Qed.

Lemma toString_base64_regex buf :
  buf <> [] -> b64_regex (toString_base64 buf) = true.
Proof.
  intros Hne. pose proof (toString_base64_class buf) as H.
  destruct buf as [|a [|b [|c l]]]; [congruence| | |].
  - split_bytes.
    cbn [toString_base64 sextets_of_bytes zero b64_regex class_then_pad] in H |- *.
    rewrite (proj1 (proj2 (proj2 (b64char_facts _ _ _ _ _ _)))) in H |- *.
    exact H.
  - split_bytes.
    cbn [toString_base64 sextets_of_bytes zero b64_regex class_then_pad] in H |- *.
    rewrite (proj1 (proj2 (proj2 (b64char_facts _ _ _ _ _ _)))) in H |- *.
    exact H.
  - split_bytes.
    cbn [toString_base64 sextets_of_bytes b64_regex class_then_pad] in H |- *.
    rewrite (proj1 (proj2 (proj2 (b64char_facts _ _ _ _ _ _)))) in H |- *.
    exact H.
Qed.

Lemma toString_base64_length buf :
  exists n, String.length (toString_base64 buf) = 4 * n.
Proof.
  induction buf as [|a|a b|a b c l [n IH]] using list_ind3.
  - now exists 0.
  - exists 1. cbn [toString_base64].
    now destruct (sextets_of_bytes a zero zero) as [[[s1 s2] s3] s4].
  - exists 1. cbn [toString_base64].
    now destruct (sextets_of_bytes a b zero) as [[[s1 s2] s3] s4].
  - exists (S n). cbn [toString_base64].
    destruct (sextets_of_bytes a b c) as [[[s1 s2] s3] s4].
    cbn [String.length]. rewrite IH. lia.
Qed.

Lemma trimStart_wire s : all_chars wire s = true -> trimStart s = s.
Proof.
  destruct s as [|c r]; simpl; [reflexivity|].
  unfold wire. destruct (is_space c); [discriminate|reflexivity].
Qed.

Lemma trimEnd_wire s : all_chars wire s = true -> trimEnd s = s.
Proof.
  induction s as [|c r IH]; simpl; [reflexivity|].
  intros H. apply andb_true_iff in H. destruct H as [Hc Hr].
  rewrite (IH Hr). unfold wire in Hc.
  destruct r; [|reflexivity]. destruct (is_space c); [discriminate|reflexivity].
Qed.

Lemma replace_all_wire s :
  all_chars wire s = true ->
  replace_all "_" "/" (replace_all "-" "+" s) = s.
Proof.
  induction s as [|c r IH]; simpl; [reflexivity|].
  intros H. apply andb_true_iff in H. destruct H as [Hc Hr].
  rewrite (IH Hr). unfold wire in Hc.
  destruct (c =? "-")%char; [now rewrite andb_false_r in Hc|].
  destruct (c =? "_")%char; [now rewrite andb_false_r in Hc|reflexivity].
Qed.

Lemma append_empty s : s ++ "" = s.
Proof. induction s as [|c r IH]; simpl; [reflexivity|now rewrite IH]. Qed.

Lemma pad4_multiple s n : String.length s = 4 * n -> pad4 s = s.
Proof.
  intros H. unfold pad4. rewrite H, Nat.mul_comm, Nat.Div0.mod_mul.
  simpl. apply append_empty.
Qed.

(** Decoding what the encoder wrote gives the bytes back. *)
Lemma b64urlToBuf_toString_base64 buf :
  b64urlToBuf (JStr (toString_base64 buf)) = Some buf.
Proof.
  unfold b64urlToBuf, trim.
  pose proof (toString_base64_wire buf) as Hw.
  destruct (toString_base64_length buf) as [n Hn].
  rewrite (trimStart_wire _ Hw), (trimEnd_wire _ Hw), (replace_all_wire _ Hw),
    (pad4_multiple _ n Hn), base64_round_trip.
  reflexivity.
Qed.

Lemma looksLikeB64_toString_base64 buf :
  8 <= String.length (toString_base64 buf) ->
  looksLikeB64 (JStr (toString_base64 buf)) = true.
Proof.
  intros H. unfold looksLikeB64. apply andb_true_iff. split.
  - now apply Nat.leb_le.
  - apply toString_base64_regex. intros ->. simpl in H. lia.
Qed.

(** The first preferred name holding a qualifying string is the candidate. *)
Lemma pickBase64_first_name k ks v rest :
  looksLikeB64 v = true ->
  pickBase64 (JObj ((k, v) :: rest)) (k :: ks) true = Some (Located k v k).
Proof.
  intros Hv.
  apply (@preferred_loop_stops (k :: ks) true _ [] k ks); auto.
  unfold try_preferred, get. simpl. rewrite String.eqb_refl. now rewrite Hv.
Qed.

Lemma buffer_eqb_eq a b : buffer_eqb a b = true -> a = b.
Proof.
  revert b; induction a as [|x a IH]; intros [|y b]; simpl;
    try discriminate; try reflexivity.
  intros H. apply andb_true_iff in H. destruct H as [Hx Hab].
  apply Ascii.eqb_eq in Hx. now rewrite Hx, (IH b Hab).
Qed.

Lemma short_cipher_inverts kr b :
  exists ct, short_cipher (Encrypt kr b) = Resolved ct
             /\ short_cipher (Decrypt kr ct) = Resolved b.
Proof.
  simpl. destruct (buffer_eqb b _) eqn:E.
  - apply buffer_eqb_eq in E. subst b. eexists; split; reflexivity.
  - eexists; split; reflexivity.
Qed.

(* ------------------------------------------------------------------ *)
(** ** Routing *)

Lemma route_not_preflight req r :
  match_route req = Some r -> is_preflight req = false.
Proof.
  unfold match_route, is_preflight.
  destruct (method req =? "GET") eqn:Eg.
  - apply String.eqb_eq in Eg. now rewrite Eg.
  - destruct (method req =? "POST") eqn:Ep; [|discriminate].
    apply String.eqb_eq in Ep. now rewrite Ep.
Qed.

Lemma body_parser_container p req_body :
  body_parser p = Some req_body -> is_container req_body = true.
Proof.
  destruct p as [|j| | |]; simpl; try discriminate.
  - now intros [= <-].
  - destruct j; try discriminate; now intros [= <-].
Qed.

Lemma or_empty_container req_body :
  is_container req_body = true -> or_empty req_body = req_body.
Proof. destruct req_body; try discriminate; reflexivity. Qed.

(* ------------------------------------------------------------------ *)
(** ** Wrap, then unwrap (C4) *)

(** C4, amended.  When the provider encrypts [b] to [ct] and decrypts [ct]
    to [b], and both [base64(b)] and [base64(ct)] have at least 8
    characters, POST /wrap with [{ key: base64(b) }] answers 200 with the
    single field [wrapped_key = base64(ct)] and POST /unwrap with that
    [wrapped_key] answers 200 with [{ key: base64(b) }]; each request calls
    the provider once. *)
Theorem wrap_unwrap_round_trip kr kms b ct req_wrap req_unwrap :
  8 <= String.length (toString_base64 b) ->
  8 <= String.length (toString_base64 ct) ->
  kms (Encrypt kr b) = Resolved ct ->
  kms (Decrypt kr ct) = Resolved b ->
  match_route req_wrap = Some Wrap ->
  body_payload req_wrap = Json (JObj [("key", JStr (toString_base64 b))]) ->
  match_route req_unwrap = Some Unwrap ->
  body_payload req_unwrap = Json (JObj [("wrapped_key", JStr (toString_base64 ct))]) ->
  serve kr kms req_wrap
  = (send req_wrap Wrap
       (Reply 200 (JObj [("wrapped_key", JStr (toString_base64 ct))])),
     [Encrypt kr b])
  /\ serve kr kms req_unwrap
     = (send req_unwrap Unwrap
          (Reply 200 (JObj [("key", JStr (toString_base64 b))])),
        [Decrypt kr ct]).
Proof.
  intros Hb Hct He Hd Hrw Hpw Hru Hpu.
  apply looksLikeB64_toString_base64 in Hb, Hct.
  split.
  - unfold serve. rewrite (route_not_preflight _ Hrw), Hpw, Hrw.
    cbn [body_parser]. unfold wrap, wrap_keys.
    rewrite (pickBase64_first_name "key" _ _ [] Hb).
    cbn [b64]. rewrite b64urlToBuf_toString_base64.
    cbn [run]. rewrite He. reflexivity.
  - unfold serve. rewrite (route_not_preflight _ Hru), Hpu, Hru.
    cbn [body_parser]. unfold unwrap, unwrap_keys.
    rewrite (pickBase64_first_name "wrapped_key" _ _ [] Hct).
    cbn [b64]. rewrite b64urlToBuf_toString_base64.
    cbn [run]. rewrite Hd. reflexivity.
Qed.

(** The scenario of the specification: the bytes of "Hello", a provider that
    reverses the bytes. *)
Lemma wrap_unwrap_round_trip_witness :
  let kms c :=
    match c with Encrypt _ x => Resolved (rev x) | Decrypt _ x => Resolved (rev x) end in
  serve "k" kms (post "/wrap" (JObj [("key", JStr "SGVsbG8=")]))
  = (send (post "/wrap" (JObj [("key", JStr "SGVsbG8=")])) Wrap
       (Reply 200 (JObj [("wrapped_key", JStr "b2xsZUg=")])),
     [Encrypt "k" (list_ascii_of_string "Hello")])
  /\ serve "k" kms (post "/unwrap" (JObj [("wrapped_key", JStr "b2xsZUg=")]))
     = (send (post "/unwrap" (JObj [("wrapped_key", JStr "b2xsZUg=")])) Unwrap
          (Reply 200 (JObj [("key", JStr "SGVsbG8=")])),
        [Decrypt "k" (list_ascii_of_string "olleH")]).
Proof.
  intros kms.
  apply (@wrap_unwrap_round_trip "k" kms
           (list_ascii_of_string "Hello") (list_ascii_of_string "olleH")
           (post "/wrap" (JObj [("key", JStr "SGVsbG8=")]))
           (post "/unwrap" (JObj [("wrapped_key", JStr "b2xsZUg=")]))).
  - simpl; lia.
  - simpl; lia.
  - reflexivity.
  - reflexivity.
  - reflexivity.
  - reflexivity.
  - reflexivity.
  - reflexivity.
Defined.

(** C4 as written fails: nothing makes the ciphertext long enough for its
    base64 text to pass [looksLikeB64].  With [short_cipher] the wrap of
    "SGVsbG8=" answers [wrapped_key = "AQ=="], which the unwrap route does
    not accept as a candidate (400). *)
Lemma round_trip_as_written_counterexample : ~ round_trip_as_written.
Proof.
  intros H.
  destruct (H "k" short_cipher (short_cipher_inverts "k")
              (list_ascii_of_string "Hello")) as (w & Hw & Hu).
  - simpl; lia.
  - vm_compute in Hw. injection Hw as <-. vm_compute in Hu. discriminate.
Qed.

(* ------------------------------------------------------------------ *)
(** ** The empty object on the wrap route *)

(** The scenario [{}]: 400 and an empty list of received keys. *)
Lemma wrap_empty_object :
  serve "k" (fun _ => Resolved []) (post "/wrap" (JObj []))
  = (send (post "/wrap" (JObj [])) Wrap
       (Reply 400 (JObj [("error", JStr "missing DEK (base64)");
                         ("received_keys", JArr [])])), []).
Proof. reflexivity. Qed.

(* ------------------------------------------------------------------ *)
(** ** The key resource in responses (C5) *)

Lemma run_wrap_name kr kr' kms kms' req_body :
  (forall data, kms (Encrypt kr data) = kms' (Encrypt kr' data)) ->
  fst (run kms (wrap kr req_body)) = fst (run kms' (wrap kr' req_body)).
Proof.
  intros H. unfold wrap.
  destruct (pickBase64 req_body wrap_keys true) as [got|].
  - destruct (b64urlToBuf (b64 got)) as [plaintext|]; [|reflexivity].
    cbn [run]. rewrite (H plaintext).
    now destruct (kms' (Encrypt kr' plaintext)).
  - now destruct (typeof (get req_body "reason")).
Qed.

Lemma run_unwrap_name kr kr' kms kms' req_body :
  (forall data, kms (Decrypt kr data) = kms' (Decrypt kr' data)) ->
  fst (run kms (unwrap kr req_body)) = fst (run kms' (unwrap kr' req_body)).
Proof.
  intros H. unfold unwrap.
  destruct (pickBase64 req_body unwrap_keys true) as [got|]; [|reflexivity].
  destruct (b64urlToBuf (b64 got)) as [ciphertext|]; [|reflexivity].
  cbn [run]. rewrite (H ciphertext).
  now destruct (kms' (Decrypt kr' ciphertext)).
Qed.

(** C5, amended.  The key-resource identifier is sent by GET /status, as the
    field [key_resource] of the descriptor; every response not sent by that
    route is the same under another identifier whose provider answers
    alike: the handlers pass the identifier to the provider and put it in
    no response. *)
Theorem key_resource_only_in_status kr kr' kms kms' req :
  (forall data, kms (Encrypt kr data) = kms' (Encrypt kr' data)) ->
  (forall data, kms (Decrypt kr data) = kms' (Decrypt kr' data)) ->
  (sent_by (fst (serve kr kms req)) = ByRoute Status ->
   body (fst (serve kr kms req)) = JsonBody (status_descriptor kr)
   /\ get (status_descriptor kr) "key_resource" = JStr kr)
  /\ (sent_by (fst (serve kr kms req)) <> ByRoute Status ->
      fst (serve kr kms req) = fst (serve kr' kms' req)).
Proof.
  intros He Hd. unfold serve.
  destruct (is_preflight req); [split; [discriminate|reflexivity]|].
  destruct (body_parser (body_payload req)) as [req_body|];
    [|split; [discriminate|reflexivity]].
  destruct (match_route req) as [[| | | |]|]; cbn [fst];
    try (split; [discriminate|reflexivity]).
  - split; [intros _; split; reflexivity|]. intros H. now elim H.
  - pose proof (run_wrap_name kr kr' kms kms' req_body He) as E.
    destruct (run kms (wrap kr req_body)) as [rep calls].
    destruct (run kms' (wrap kr' req_body)) as [rep' calls'].
    cbn [fst] in E |- *. subst rep'. split; [discriminate|reflexivity].
  - pose proof (run_unwrap_name kr kr' kms kms' req_body Hd) as E.
    destruct (run kms (unwrap kr req_body)) as [rep calls].
    destruct (run kms' (unwrap kr' req_body)) as [rep' calls'].
    cbn [fst] in E |- *. subst rep'. split; [discriminate|reflexivity].
Qed.

(** Two deployments that differ in the identifier answer a wrap alike, and
    the status route shows the identifier. *)
Lemma key_resource_only_in_status_witness :
  let kms (c : kms_call) :=
    match c with Encrypt _ x => Resolved (rev x) | Decrypt _ x => Resolved (rev x) end in
  fst (serve "projects/a" kms (post "/wrap" (JObj [("key", JStr "SGVsbG8=")])))
  = fst (serve "projects/b" kms (post "/wrap" (JObj [("key", JStr "SGVsbG8=")])))
  /\ body (fst (serve "projects/a" kms (Request "GET" "/status" None None NoJson)))
     = JsonBody (status_descriptor "projects/a").
Proof.
  intros kms. split.
  - apply (proj2 (@key_resource_only_in_status "projects/a" "projects/b" kms kms
                    (post "/wrap" (JObj [("key", JStr "SGVsbG8=")]))
                    (fun _ => eq_refl) (fun _ => eq_refl))).
    vm_compute. discriminate.
  - apply (proj1 (@key_resource_only_in_status "projects/a" "projects/b" kms kms
                    (Request "GET" "/status" None None NoJson)
                    (fun _ => eq_refl) (fun _ => eq_refl))).
    reflexivity.
Defined.

(** C5 as written fails on GET /status. *)
Lemma key_resource_never_in_body_counterexample : ~ key_resource_never_in_body.
Proof.
  intros H.
  specialize (H "projects/p/locations/l/keyRings/r/cryptoKeys/k"
                (fun _ => Resolved [])
                (Request "GET" "/status" None None NoJson)).
  vm_compute in H. discriminate.
Qed.

(* ------------------------------------------------------------------ *)
(** ** Bodies that do not parse (C6) *)

(** C6, amended.  On POST /wrap, a request without a JSON body is handled
    with [req.body = {}]: the handler runs and answers the missing-DEK 400
    with no received keys.  A body declared JSON that does not parse never
    reaches the handler: the parser passes its error on and Express answers
    400 itself, not 500; the provider is not called. *)
Theorem wrap_unparsed_body kr kms req :
  match_route req = Some Wrap ->
  (body_payload req = NoJson ->
   serve kr kms req
   = (send req Wrap
        (Reply 400 (JObj [("error", JStr "missing DEK (base64)");
                          ("received_keys", JArr [])])), []))
  /\ (body_payload req = Malformed ->
      serve kr kms req
      = (Response 400 (cors_headers req) FrameworkPage ByFramework, [])).
Proof.
  intros Hr. unfold serve. rewrite (route_not_preflight _ Hr).
  split; intros ->; cbn [body_parser]; [rewrite Hr|]; reflexivity.
Qed.

(** A malformed body, and no body at all. *)
Lemma wrap_unparsed_body_witness :
  serve "k" (fun _ => Resolved []) (Request "POST" "/wrap" None None Malformed)
  = (Response 400 (cors_headers (Request "POST" "/wrap" None None Malformed))
       FrameworkPage ByFramework, [])
  /\ serve "k" (fun _ => Resolved []) (Request "POST" "/wrap" None None NoJson)
     = (send (Request "POST" "/wrap" None None NoJson) Wrap
          (Reply 400 (JObj [("error", JStr "missing DEK (base64)");
                            ("received_keys", JArr [])])), []).
Proof.
  split.
  - apply (proj2 (@wrap_unparsed_body "k" (fun _ => Resolved [])
                    (Request "POST" "/wrap" None None Malformed) eq_refl)).
    reflexivity.
  - apply (proj1 (@wrap_unparsed_body "k" (fun _ => Resolved [])
                    (Request "POST" "/wrap" None None NoJson) eq_refl)).
    reflexivity.
Defined.

(** C6 as written fails: the response to a malformed body is written by
    Express, not by the handler. *)
Lemma parse_failure_as_empty_object_counterexample :
  ~ parse_failure_as_empty_object.
Proof.
  intros H.
  specialize (H "k" (fun _ => Resolved [])
                (Request "POST" "/wrap" None None Malformed)
                eq_refl eq_refl).
  vm_compute in H. discriminate.
Qed.

(* ------------------------------------------------------------------ *)
(** ** The CORS gate (C8) *)

(** C8, amended.  A request with method OPTIONS or HEAD, on any path and
    with any body, is answered by the gate: 204, empty body, no route
    handler and no provider call; [Access-Control-Allow-Origin] is the
    [Origin] of the request when it is present and not empty, the default
    origin otherwise; [Vary] is [Origin] and the max age 86400. *)
Theorem preflight_answered_by_gate kr kms req :
  method req = "OPTIONS" \/ method req = "HEAD" ->
  serve kr kms req = (Response 204 (cors_headers req) Empty ByCorsGate, [])
  /\ header "Access-Control-Allow-Origin" (fst (serve kr kms req))
     = Some (match origin req with
             | Some o => if (o =? "") then default_origin else o
             | None => default_origin
             end)
  /\ header "Vary" (fst (serve kr kms req)) = Some "Origin"
  /\ header "Access-Control-Max-Age" (fst (serve kr kms req)) = Some "86400".
Proof.
  intros Hm.
  assert (Hp : is_preflight req = true).
  { unfold is_preflight. destruct Hm as [-> | ->]; reflexivity. }
  unfold serve. rewrite Hp. repeat split.
Qed.

(** The scenario OPTIONS /wrap with [Origin: https://example.com]. *)
Lemma preflight_answered_by_gate_witness :
  let req := Request "OPTIONS" "/wrap" (Some "https://example.com") None NoJson in
  serve "k" (fun _ => Resolved []) req
  = (Response 204 (cors_headers req) Empty ByCorsGate, [])
  /\ header "Access-Control-Allow-Origin" (fst (serve "k" (fun _ => Resolved []) req))
     = Some "https://example.com"
  /\ header "Vary" (fst (serve "k" (fun _ => Resolved []) req)) = Some "Origin"
  /\ header "Access-Control-Max-Age" (fst (serve "k" (fun _ => Resolved []) req))
     = Some "86400".
Proof.
  intros req.
  apply (@preflight_answered_by_gate "k" (fun _ => Resolved []) req).
  left; reflexivity.
Defined.

(** C8 as written fails on an [Origin] header that is present and empty: the
    default origin is sent, not the empty string. *)
Lemma preflight_echoes_origin_counterexample : ~ preflight_echoes_origin.
Proof.
  intros H.
  destruct (H "k" (fun _ => Resolved [])
              (Request "OPTIONS" "/wrap" (Some "") None NoJson) eq_refl)
    as (_ & _ & _ & Ho & _).
  vm_compute in Ho. discriminate.
Qed.

(* ------------------------------------------------------------------ *)
(** ** Decoding a candidate (C9) *)

Lemma b64urlToBuf_string s : exists buf, b64urlToBuf (JStr s) = Some buf.
Proof. simpl. now eexists. Qed.

Lemma b64urlToBuf_candidate body prefs rec got :
  pickBase64 body prefs rec = Some got ->
  exists buf, b64urlToBuf (b64 got) = Some buf.
Proof.
  intros H. apply pickBase64_qualifies in H.
  destruct (looksLikeB64_string _ H) as [s ->]. apply b64urlToBuf_string.
Qed.

(** C9.  The decoder returns a buffer for every value that passes
    [looksLikeB64], hence for every candidate of the locator; neither
    handler ever answers with its invalid-base64 error. *)
Theorem invalid_base64_unreachable kr kms req_body :
  (forall s, looksLikeB64 s = true -> b64urlToBuf s <> None)
  /\ (forall prefs rec got,
        pickBase64 req_body prefs rec = Some got -> b64urlToBuf (b64 got) <> None)
  /\ fst (run kms (wrap kr req_body))
     <> Reply 400 (JObj [("error", JStr "invalid base64/plaintext")])
  /\ fst (run kms (unwrap kr req_body))
     <> Reply 400 (JObj [("error", JStr "invalid base64/ciphertext")]).
Proof.
  split; [|split; [|split]].
  - intros s Hs. destruct (looksLikeB64_string _ Hs) as [str ->]. discriminate.
  - intros prefs rec got H.
    destruct (b64urlToBuf_candidate _ _ _ H) as [buf ->]. discriminate.
  - unfold wrap. destruct (pickBase64 req_body wrap_keys true) as [got|] eqn:E.
    + destruct (b64urlToBuf_candidate _ _ _ E) as [buf ->].
      cbn [run]. destruct (kms _); cbn [fst]; discriminate.
    + destruct (typeof (get req_body "reason")); cbn [run fst]; discriminate.
  - unfold unwrap. destruct (pickBase64 req_body unwrap_keys true) as [got|] eqn:E.
    + destruct (b64urlToBuf_candidate _ _ _ E) as [buf ->].
      cbn [run]. destruct (kms _); cbn [fst]; discriminate.
    + cbn [run fst]; discriminate.
Qed.

Lemma invalid_base64_unreachable_witness :
  b64urlToBuf (JStr "QUFBQUFBQUE=") <> None.
Proof.
  apply (proj1 (@invalid_base64_unreachable "k" (fun _ => Resolved []) JNull)).
  reflexivity.
Defined.

(* ================================================================== *)
(** * Further properties of the code *)

(* ------------------------------------------------------------------ *)
(** ** What the locator returns *)

(** The ways an activation produces a result. *)
Lemma activation_cases self prefs rec body r :
  activation self prefs rec body = Some r ->
  (exists k, In k prefs /\ In (k, b64 r) (entries body)
             /\ looksLikeB64 (b64 r) = true /\ r = Located k (b64 r) k)
  \/ (exists k v r', In k prefs /\ In (k, v) (entries body)
                     /\ self v = Some r' /\ r = map_path (dot k) r')
  \/ (rec = true /\ isArray body = true
      /\ exists i v r', In (i, v) (entries body)
                        /\ self v = Some r' /\ r = map_path (bracket i) r')
  \/ (rec = true /\ isArray body = false
      /\ exists k, In (k, b64 r) (entries body)
                   /\ looksLikeB64 (b64 r) = true /\ r = Located k (b64 r) k)
  \/ (rec = true /\ isArray body = false
      /\ exists k v r', In (k, v) (entries body)
                        /\ self v = Some r' /\ r = map_path (dot k) r').
Proof.
  unfold activation.
  destruct (negb (truthy body) || negb (is_object_type body)); [discriminate|].
  destruct (first_some (try_preferred self body) prefs) as [r1|] eqn:E1.
  - intros [= <-]. apply first_some_some in E1. destruct E1 as (k & Hin & Hk).
    unfold try_preferred, has, get in Hk.
    destruct (assoc k (entries body)) as [v|] eqn:Ea; simpl in Hk; [|discriminate].
    apply assoc_In in Ea.
    destruct (looksLikeB64 v) eqn:El.
    + injection Hk as <-. left. exists k. simpl. auto.
    + destruct (is_object_type v); [|discriminate].
      destruct (self v) as [r'|] eqn:Es; [|discriminate].
      injection Hk as <-. right; left. exists k, v, r'. auto.
  - destruct rec; [|discriminate]. simpl.
    destruct (isArray body) eqn:Ha.
    + intros H. apply first_some_some in H. destruct H as ([i v] & Hin & Hk).
      unfold try_element in Hk; simpl in Hk.
      destruct (self v) as [r'|] eqn:Es; [|discriminate].
      injection Hk as <-. right; right; left. repeat split.
      exists i, v, r'. auto.
    + intros H. apply first_some_some in H. destruct H as ([k v] & Hin & Hk).
      unfold try_entry in Hk.
      destruct (looksLikeB64 v) eqn:El.
      * injection Hk as <-. right; right; right; left. repeat split.
        exists k. simpl. auto.
      * destruct (truthy v && is_object_type v); [|discriminate].
        destruct (self v) as [r'|] eqn:Es; [|discriminate].
        injection Hk as <-. right; right; right; right. repeat split.
        exists k, v, r'. auto.
Qed.

(** X1.  A candidate is a string that passed [looksLikeB64], it is the value
    of the property [key] of an object (or array) inside the body, and [path]
    spells the steps that lead from the body to that property. *)
Theorem pickBase64_sound body prefs rec r :
  pickBase64 body prefs rec = Some r ->
  looksLikeB64 (b64 r) = true
  /\ exists segs, Holds body segs (key r) (b64 r)
                  /\ path r = locator segs (key r).
Proof.
  intros H. split; [eapply pickBase64_qualifies; eauto|].
  revert r H.
  induction body as [| |b|n|s|xs IH|es IH] using value_nested_ind;
    try (intros r; simpl; discriminate); intros r; rewrite pickBase64_unfold;
    intros H; apply activation_cases in H;
    destruct H as [(k & _ & Hin & _ & ->)
                  |[(k & v & r' & _ & Hin & Hs & ->)
                  |[(_ & Ha & i & v & r' & Hin & Hs & ->)
                  |[(_ & Ha & k & Hin & _ & ->)
                   |(_ & Ha & k & v & r' & Hin & Hs & ->)]]]];
    try discriminate.
  - exists []. split; [now constructor|reflexivity].
  - assert (Hv : In v xs) by (apply index_keys_In in Hin; tauto).
    rewrite Forall_forall in IH. destruct (IH v Hv r' Hs) as (segs & Hh & Hp).
    exists (Field k :: segs). split; [econstructor; eauto|].
    simpl. now rewrite Hp.
  - assert (Hv : In v xs) by (apply index_keys_In in Hin; tauto).
    rewrite Forall_forall in IH. destruct (IH v Hv r' Hs) as (segs & Hh & Hp).
    exists (Index i :: segs). split; [econstructor; eauto|].
    simpl. now rewrite Hp.
  - exists []. split; [now constructor|reflexivity].
  - rewrite Forall_forall in IH. destruct (IH (k, v) Hin r' Hs) as (segs & Hh & Hp).
    exists (Field k :: segs). split; [econstructor; eauto|].
    simpl. now rewrite Hp.
  - exists []. split; [now constructor|reflexivity].
  - rewrite Forall_forall in IH. destruct (IH (k, v) Hin r' Hs) as (segs & Hh & Hp).
    exists (Field k :: segs). split; [econstructor; eauto|].
    simpl. now rewrite Hp.
Qed.

Lemma pickBase64_sound_witness :
  looksLikeB64 (JStr "QUFBQUFBQUE=") = true
  /\ exists segs,
       Holds (JObj [("x", JArr [JNum 1; JObj [("a", JStr "QUFBQUFBQUE=")]])])
         segs "a" (JStr "QUFBQUFBQUE=")
       /\ "x.[1].a" = locator segs "a".
Proof.
  apply (@pickBase64_sound
           (JObj [("x", JArr [JNum 1; JObj [("a", JStr "QUFBQUFBQUE=")]])])
           wrap_keys true (Located "a" (JStr "QUFBQUFBQUE=") "x.[1].a")).
  reflexivity.
Defined.

Lemma first_some_hit A B (f : A -> option B) (l : list A) a :
  In a l -> f a <> None -> first_some f l <> None.
Proof.
  induction l as [|x l IH]; simpl; [tauto|].
  intros [-> | Hin] Ha.
  - destruct (f a); [discriminate|congruence].
  - destruct (f x); [discriminate|auto].
Qed.

Lemma combine_In_r A B (ks : list A) (xs : list B) x :
  List.length ks = List.length xs -> In x xs -> exists k, In (k, x) (combine ks xs).
Proof.
  revert ks; induction xs as [|y xs IH]; intros [|k ks]; simpl;
    try tauto; try discriminate.
  intros [= Hl] [-> | Hin].
  - exists k; now left.
  - destruct (IH ks Hl Hin) as [k' Hk']. exists k'; now right.
Qed.

Lemma index_keys_element A (xs : list A) x :
  In x xs -> exists i, In (i, x) (index_keys xs).
Proof.
  apply combine_In_r. now rewrite length_map, length_seq.
Qed.

Lemma held_in_field_container v :
  held_in_field v = true -> truthy v && is_object_type v = true.
Proof. destruct v; try discriminate; reflexivity. Qed.

(** Nothing held under a field name is missed. *)
Lemma pickBase64_complete body prefs :
  held_in_field body = true -> pickBase64 body prefs true <> None.
Proof.
  induction body as [| |b|n|s|xs IH|es IH] using value_nested_ind;
    try discriminate; intros Hh; rewrite pickBase64_unfold; unfold activation;
    cbn [truthy is_object_type typeof negb orb isArray entries];
    destruct (first_some _ prefs); try discriminate.
  - simpl in Hh. apply existsb_exists in Hh. destruct Hh as (v & Hv & Hhv).
    destruct (index_keys_element xs v Hv) as [i Hi].
    apply (first_some_hit _ _ (i, v) Hi). unfold try_element. cbn [fst snd].
    rewrite Forall_forall in IH. specialize (IH v Hv Hhv).
    now destruct (pickBase64 v prefs true).
  - simpl in Hh. apply existsb_exists in Hh. destruct Hh as ([k v] & Hv & Hhv).
    apply (first_some_hit _ _ (k, v) Hv). unfold try_entry. simpl in Hhv.
    destruct (looksLikeB64 v); [discriminate|]. simpl in Hhv.
    rewrite (held_in_field_container _ Hhv).
    rewrite Forall_forall in IH. specialize (IH (k, v) Hv Hhv). simpl in IH.
    now destruct (pickBase64 v prefs true).
Qed.

Lemma index_key_not_preferred A prefs k (xs : list A) x :
  forallb not_index_like prefs = true ->
  In k prefs -> In (k, x) (index_keys xs) -> False.
Proof.
  intros Hp Hk Hin. rewrite forallb_forall in Hp. specialize (Hp k Hk).
  apply index_keys_In in Hin. destruct Hin as (_ & i & ->).
  pose proof (index_key_starts_with_digit i) as Hd.
  unfold not_index_like in Hp. destruct (index_key i) as [|c r]; [exact Hd|].
  rewrite Hd in Hp. discriminate.
Qed.

(** With preferred names that are no array indices, whatever is found is
    held under a field name. *)
Lemma pickBase64_held body prefs rec r :
  forallb not_index_like prefs = true ->
  pickBase64 body prefs rec = Some r -> held_in_field body = true.
Proof.
  intros Hp. revert r.
  induction body as [| |b|n|s|xs IH|es IH] using value_nested_ind;
    try (intros r; simpl; discriminate); intros r; rewrite pickBase64_unfold;
    intros H; apply activation_cases in H;
    destruct H as [(k & Hk & Hin & Hl & Hr)
                  |[(k & v & r' & Hk & Hin & Hs & Hr)
                  |[(_ & Ha & i & v & r' & Hin & Hs & Hr)
                  |[(_ & Ha & k & Hin & Hl & Hr)
                   |(_ & Ha & k & v & r' & Hin & Hs & Hr)]]]];
    try discriminate;
    try (exfalso; eapply index_key_not_preferred; eauto; fail).
  - assert (Hv : In v xs) by (apply index_keys_In in Hin; tauto).
    rewrite Forall_forall in IH. simpl. apply existsb_exists. exists v.
    split; [assumption|]. eapply IH; eauto.
  - simpl. apply existsb_exists. exists (k, b64 r).
    split; [assumption|]. simpl. now rewrite Hl.
  - rewrite Forall_forall in IH. simpl. apply existsb_exists. exists (k, v).
    split; [assumption|]. pose proof (IH (k, v) Hin r' Hs) as E.
    simpl in E |- *. rewrite E. apply orb_true_r.
  - simpl. apply existsb_exists. exists (k, b64 r).
    split; [assumption|]. simpl. now rewrite Hl.
  - rewrite Forall_forall in IH. simpl. apply existsb_exists. exists (k, v).
    split; [assumption|]. pose proof (IH (k, v) Hin r' Hs) as E.
    simpl in E |- *. rewrite E. apply orb_true_r.
Qed.

(** X2.  With preferred names that are no array indices (as those of both
    routes), the full search finds nothing exactly when no object of the
    body, at any depth, holds a qualifying string as a property value. *)
Theorem pickBase64_none_iff prefs body :
  forallb not_index_like prefs = true ->
  (pickBase64 body prefs true = None <-> held_in_field body = false).
Proof.
  intros Hp. split.
  - intros Hn. destruct (held_in_field body) eqn:Hh; [|reflexivity].
    now elim (pickBase64_complete body prefs Hh).
  - intros Hh. destruct (pickBase64 body prefs true) as [r|] eqn:E; [|reflexivity].
    rewrite (pickBase64_held body prefs true Hp E) in Hh. discriminate.
Qed.

Lemma pickBase64_none_iff_witness :
  pickBase64 (JObj [("items", JArr [JStr "QUFBQUFBQUE="]); ("n", JNum 5)])
    unwrap_keys true = None
  <-> held_in_field (JObj [("items", JArr [JStr "QUFBQUFBQUE="]); ("n", JNum 5)])
      = false.
Proof.
  apply (@pickBase64_none_iff unwrap_keys
           (JObj [("items", JArr [JStr "QUFBQUFBQUE="]); ("n", JNum 5)])).
  reflexivity.
Defined.

(** X3 is [pickBase64_depth_first] above; a body whose first leaf lies below
    a later one in the text of the object. *)
Lemma pickBase64_depth_first_witness :
  option_map b64
    (pickBase64 (JObj [("a", JArr [JNum 1; JObj [("token", JStr "AAAAAAAA")]]);
                       ("b", JStr "BBBBBBBB")]) wrap_keys true)
  = Some (JStr "AAAAAAAA").
Proof.
  exact (@pickBase64_depth_first wrap_keys
           (JObj [("a", JArr [JNum 1; JObj [("token", JStr "AAAAAAAA")]]);
                  ("b", JStr "BBBBBBBB")])
           eq_refl eq_refl eq_refl).
Defined.

Lemma mem_In k l : In k l -> mem k l = true.
Proof.
  intros H. unfold mem. apply existsb_exists. exists k.
  split; [assumption|apply String.eqb_refl].
Qed.

Lemma pickBase64_some_container body prefs rec r :
  pickBase64 body prefs rec = Some r -> is_container body = true.
Proof.
  destruct (is_container body) eqn:E; [reflexivity|].
  now rewrite (pickBase64_leaf body prefs rec E).
Qed.

(** X4.  With [enableRecursive] off (and preferred names that are no array
    indices) the locator only returns a string held under a preferred name
    and reached through preferred names: its [key] is one of the preferred
    names and its value one of [preferred_strings]. *)
Theorem pickBase64_non_recursive prefs body r :
  forallb not_index_like prefs = true ->
  pickBase64 body prefs false = Some r ->
  In (key r) prefs /\ In (b64 r) (preferred_strings prefs body).
Proof.
  intros Hp. revert r.
  induction body as [| |b|n|s|xs IH|es IH] using value_nested_ind;
    try (intros r; simpl; discriminate); intros r; rewrite pickBase64_unfold;
    intros H; apply activation_cases in H;
    destruct H as [(k & Hk & Hin & Hl & Hr)
                  |[(k & v & r' & Hk & Hin & Hs & Hr)
                  |[(Hf & _)|[(Hf & _)|(Hf & _)]]]];
    try discriminate;
    try (exfalso; eapply index_key_not_preferred; eauto; fail).
  - split; [rewrite Hr; exact Hk|].
    simpl. apply in_flat_map. exists (k, b64 r). split; [assumption|].
    cbn [fst snd]. rewrite (mem_In _ _ Hk), Hl. now left.
  - rewrite Forall_forall in IH. destruct (IH (k, v) Hin r' Hs) as [Hk' Hb'].
    rewrite Hr. split; [exact Hk'|].
    simpl. apply in_flat_map. exists (k, v). split; [assumption|].
    cbn [fst snd] in Hb' |- *. rewrite (mem_In _ _ Hk).
    rewrite (container_not_b64 _ (pickBase64_some_container _ _ _ Hs)).
    exact Hb'.
Qed.

Lemma pickBase64_non_recursive_witness :
  In "data" wrap_keys
  /\ In (JStr "BBBBBBBB")
       (preferred_strings wrap_keys
          (JObj [("zzz", JStr "CCCCCCCC");
                 ("dek", JObj [("yyy", JStr "AAAAAAAA"); ("data", JStr "BBBBBBBB")])])).
Proof.
  apply (@pickBase64_non_recursive wrap_keys
           (JObj [("zzz", JStr "CCCCCCCC");
                  ("dek", JObj [("yyy", JStr "AAAAAAAA"); ("data", JStr "BBBBBBBB")])])
           (Located "data" (JStr "BBBBBBBB") "dek.data"));
    reflexivity.
Defined.

(* ------------------------------------------------------------------ *)
(** ** Spellings accepted by the decoder *)

Lemma trimStart_spaces ws x :
  all_chars is_space ws = true -> trimStart (ws ++ x) = trimStart x.
Proof.
  induction ws as [|c r IH]; simpl; [reflexivity|].
  intros H. apply andb_true_iff in H. destruct H as [Hc Hr].
  rewrite Hc. auto.
Qed.

Lemma trimEnd_all_space ws : all_chars is_space ws = true -> trimEnd ws = "".
Proof.
  induction ws as [|c r IH]; simpl; [reflexivity|].
  intros H. apply andb_true_iff in H. destruct H as [Hc Hr].
  now rewrite (IH Hr), Hc.
Qed.

Lemma trimEnd_spaces ws x :
  all_chars is_space ws = true -> trimEnd (x ++ ws) = trimEnd x.
Proof.
  intros H. induction x as [|c r IH]; simpl.
  - now apply trimEnd_all_space.
  - now rewrite IH.
Qed.

Lemma trimStart_all_space ws : all_chars is_space ws = true -> trimStart ws = "".
Proof.
  induction ws as [|c r IH]; simpl; [reflexivity|].
  intros H. apply andb_true_iff in H. destruct H as [Hc Hr].
  rewrite Hc. auto.
Qed.

(** White space around a text is dropped by [trim]. *)
Lemma trim_surrounded ws1 ws2 x :
  all_chars is_space ws1 = true -> all_chars is_space ws2 = true ->
  trim (ws1 ++ x ++ ws2) = trim x.
Proof.
  intros H1 H2. unfold trim. rewrite (trimStart_spaces _ _ H1).
  induction x as [|c r IH]; simpl.
  - now rewrite (trimStart_all_space _ H2).
  - destruct (is_space c); [exact IH|].
    change (String c (r ++ ws2)) with (String c r ++ ws2).
    now apply trimEnd_spaces.
Qed.

Lemma trim_no_space x : all_chars no_space x = true -> trim x = x.
Proof.
  intros H. unfold trim.
  assert (Hs : trimStart x = x).
  { destruct x as [|c r]; simpl in *; [reflexivity|].
    unfold no_space in H. now destruct (is_space c). }
  rewrite Hs. clear Hs.
  induction x as [|c r IH]; simpl in *; [reflexivity|].
  apply andb_true_iff in H. destruct H as [Hc Hr].
  rewrite (IH Hr). destruct r; [|reflexivity].
  unfold no_space in Hc. now destruct (is_space c).
Qed.

(** The decoder does not read past the padding. *)
Lemma sextets_pad x n : sextets (x ++ pad n) = sextets x.
Proof.
  induction x as [|c r IH]; simpl.
  - now destruct n.
  - destruct (c =? "=")%char; [reflexivity|].
    destruct (unbase64 c); now rewrite IH.
Qed.

Lemma unpadded_split s : exists m, s = unpadded s ++ pad m.
Proof.
  induction s as [|c r [m IH]]; simpl.
  - now exists 0.
  - destruct (unpadded r) as [|c' r'] eqn:E.
    + destruct (c =? "=")%char eqn:Ec.
      * apply Ascii.eqb_eq in Ec. subst c. exists (S m). simpl in *. now rewrite IH at 1.
      * exists m. simpl in *. now rewrite IH at 1.
    + exists m. simpl in *. now rewrite IH at 1.
Qed.

Lemma all_chars_unpadded p s :
  all_chars p s = true -> all_chars p (unpadded s) = true.
Proof.
  induction s as [|c r IH]; simpl; [reflexivity|].
  intros H. apply andb_true_iff in H. destruct H as [Hc Hr].
  specialize (IH Hr). destruct (unpadded r) as [|c' r'].
  - destruct (c =? "=")%char; [reflexivity|]. simpl. now rewrite Hc.
  - simpl in *. now rewrite Hc, IH.
Qed.

Lemma to_urlsafe_cons c r :
  to_urlsafe (String c r) = String (url_char c) (to_urlsafe r).
Proof. reflexivity. Qed.

Lemma std_cons c r :
  replace_all "_" "/" (replace_all "-" "+" (String c r))
  = String (std_char c) (replace_all "_" "/" (replace_all "-" "+" r)).
Proof. reflexivity. Qed.

(** Character facts, by cases on the eight bits. *)
Lemma url_char_facts c :
  is_space (url_char c) = is_space c
  /\ b64_class (url_char c) = b64_class c
  /\ (url_char c =? "=")%char = (c =? "=")%char
  /\ std_char (url_char c) = std_char c
  /\ unbase64 (std_char c) = unbase64 c
  /\ (std_char c =? "=")%char = (c =? "=")%char.
Proof.
  destruct c as [[] [] [] [] [] [] [] []]; vm_compute; repeat split.
Qed.

Lemma wire_facts c :
  wire c = true -> std_char c = c /\ no_space (url_char c) = true /\ no_space c = true.
Proof.
  destruct c as [[] [] [] [] [] [] [] []]; vm_compute; intros H;
    try discriminate; repeat split.
Qed.

Lemma std_to_urlsafe s :
  replace_all "_" "/" (replace_all "-" "+" (to_urlsafe s))
  = replace_all "_" "/" (replace_all "-" "+" s).
Proof.
  induction s as [|c r IH]; [reflexivity|].
  rewrite to_urlsafe_cons, !std_cons, IH.
  now rewrite (proj1 (proj2 (proj2 (proj2 (url_char_facts c))))).
Qed.

Lemma std_wire s :
  all_chars wire s = true -> replace_all "_" "/" (replace_all "-" "+" s) = s.
Proof.
  induction s as [|c r IH]; [reflexivity|].
  intros H. simpl in H. apply andb_true_iff in H. destruct H as [Hc Hr].
  rewrite std_cons, (IH Hr). now rewrite (proj1 (wire_facts c Hc)).
Qed.

Lemma no_space_spelling url padded s :
  all_chars wire s = true -> all_chars no_space (spelling url padded s) = true.
Proof.
  intros H. unfold spelling.
  assert (Hw : all_chars wire (if padded then s else unpadded s) = true).
  { destruct padded; [assumption|now apply all_chars_unpadded]. }
  revert Hw. generalize (if padded then s else unpadded s). clear.
  intros t. induction t as [|c r IH]; intros H.
  - now destruct url.
  - simpl in H. apply andb_true_iff in H. destruct H as [Hc Hr].
    specialize (IH Hr). destruct (wire_facts c Hc) as (_ & Hu & Hn).
    destruct url.
    + rewrite to_urlsafe_cons. simpl. now rewrite Hu.
    + simpl. now rewrite Hn.
Qed.

Lemma std_spelling url padded s :
  all_chars wire s = true ->
  replace_all "_" "/" (replace_all "-" "+" (spelling url padded s))
  = if padded then s else unpadded s.
Proof.
  intros H. unfold spelling.
  assert (Hw : all_chars wire (if padded then s else unpadded s) = true).
  { destruct padded; [assumption|now apply all_chars_unpadded]. }
  destruct url; [rewrite std_to_urlsafe|]; now apply std_wire.
Qed.

Lemma sextets_pad4_spelling (padded : bool) s :
  sextets (pad4 (if padded then s else unpadded s)) = sextets s.
Proof.
  unfold pad4. rewrite sextets_pad. destruct padded; [reflexivity|].
  destruct (unpadded_split s) as [m Hm]. rewrite Hm at 2. now rewrite sextets_pad.
Qed.

(** X5.  [b64urlToBuf] gives the bytes back from every spelling of their
    base64 text: standard or URL-safe alphabet, padded or not, with any
    white space around it. *)
Theorem b64urlToBuf_round_trip url padded ws1 ws2 buf :
  all_chars is_space ws1 = true ->
  all_chars is_space ws2 = true ->
  b64urlToBuf (JStr (ws1 ++ spelling url padded (toString_base64 buf) ++ ws2))
  = Some buf.
Proof.
  intros H1 H2. unfold b64urlToBuf.
  pose proof (toString_base64_wire buf) as Hw.
  rewrite (trim_surrounded _ _ _ H1 H2).
  rewrite (trim_no_space _ (no_space_spelling url padded _ Hw)).
  rewrite (std_spelling url padded _ Hw).
  unfold Buffer_from_base64. rewrite sextets_pad4_spelling.
  f_equal. apply base64_round_trip.
Qed.

(** The bytes FB FF BE 01 ("+/++AQ=="), URL-safe and unpadded, between a
    space and a line feed. *)
Lemma b64urlToBuf_round_trip_witness :
  b64urlToBuf (JStr (String " " ("-_--AQ" ++ String "010" "")))
  = Some [ascii_of_nat 251; ascii_of_nat 255; ascii_of_nat 190; ascii_of_nat 1].
Proof.
  apply (@b64urlToBuf_round_trip true false (String " " "") (String "010" "")
           [ascii_of_nat 251; ascii_of_nat 255; ascii_of_nat 190; ascii_of_nat 1]);
    reflexivity.
Defined.

Lemma to_urlsafe_length s : String.length (to_urlsafe s) = String.length s.
Proof.
  induction s as [|c r IH]; [reflexivity|].
  rewrite to_urlsafe_cons. simpl. now rewrite IH.
Qed.

Lemma to_urlsafe_all_pad s : all_pad (to_urlsafe s) = all_pad s.
Proof.
  induction s as [|c r IH]; [reflexivity|].
  rewrite to_urlsafe_cons. simpl. rewrite IH.
  now rewrite (proj1 (proj2 (proj2 (url_char_facts c)))).
Qed.

Lemma to_urlsafe_class_then_pad s :
  class_then_pad (to_urlsafe s) = class_then_pad s.
Proof.
  induction s as [|c r IH]; [reflexivity|].
  pose proof (to_urlsafe_all_pad (String c r)) as Hp.
  rewrite to_urlsafe_cons in Hp |- *. cbn [class_then_pad].
  rewrite IH, Hp. now rewrite (proj1 (proj2 (url_char_facts c))).
Qed.

Lemma to_urlsafe_trimStart s : trimStart (to_urlsafe s) = to_urlsafe (trimStart s).
Proof.
  induction s as [|c r IH]; [reflexivity|].
  rewrite to_urlsafe_cons. simpl. rewrite (proj1 (url_char_facts c)).
  destruct (is_space c); [exact IH|]. now rewrite to_urlsafe_cons.
Qed.

Lemma to_urlsafe_trimEnd s : trimEnd (to_urlsafe s) = to_urlsafe (trimEnd s).
Proof.
  induction s as [|c r IH]; [reflexivity|].
  rewrite to_urlsafe_cons. simpl. rewrite IH, (proj1 (url_char_facts c)).
  destruct (trimEnd r) as [|c' r'].
  - simpl. destruct (is_space c); reflexivity.
  - now rewrite !to_urlsafe_cons.
Qed.

(** X6.  The URL-safe spelling of any string is treated like the string
    itself: [looksLikeB64] gives the same answer and [b64urlToBuf] the same
    bytes. *)
Theorem urlsafe_interchangeable s :
  looksLikeB64 (JStr (to_urlsafe s)) = looksLikeB64 (JStr s)
  /\ b64urlToBuf (JStr (to_urlsafe s)) = b64urlToBuf (JStr s).
Proof.
  split.
  - unfold looksLikeB64. rewrite to_urlsafe_length. f_equal.
    destruct s as [|c r]; [reflexivity|].
    rewrite to_urlsafe_cons. cbn [b64_regex].
    now rewrite to_urlsafe_class_then_pad, (proj1 (proj2 (url_char_facts c))).
  - unfold b64urlToBuf, trim.
    now rewrite to_urlsafe_trimStart, to_urlsafe_trimEnd, std_to_urlsafe.
Qed.

(* ------------------------------------------------------------------ *)
(** ** Which keys the wrap route accepts *)

Lemma toString_base64_length_exact buf :
  String.length (toString_base64 buf) = 4 * ((List.length buf + 2) / 3).
Proof.
  induction buf as [|a|a b|a b c l IH] using list_ind3.
  - reflexivity.
  - cbn [toString_base64].
    now destruct (sextets_of_bytes a zero zero) as [[[s1 s2] s3] s4].
  - cbn [toString_base64].
    now destruct (sextets_of_bytes a b zero) as [[[s1 s2] s3] s4].
  - cbn [toString_base64].
    destruct (sextets_of_bytes a b c) as [[[s1 s2] s3] s4].
    cbn [String.length List.length]. rewrite IH.
    replace (S (S (S (List.length l))) + 2) with (List.length l + 2 + 1 * 3) by lia.
    rewrite Nat.div_add by lia. lia.
Qed.

(** X7.  The base64 text of a buffer has 4 characters for every 3 bytes,
    rounded up, and passes [looksLikeB64] exactly when the buffer has at
    least 4 bytes. *)
Theorem looksLikeB64_encoded buf :
  String.length (toString_base64 buf) = 4 * ((List.length buf + 2) / 3)
  /\ looksLikeB64 (JStr (toString_base64 buf)) = (4 <=? List.length buf)%nat.
Proof.
  split; [apply toString_base64_length_exact|].
  pose proof (toString_base64_length_exact buf) as Hl.
  destruct (4 <=? List.length buf)%nat eqn:E.
  - apply Nat.leb_le in E. apply looksLikeB64_toString_base64. rewrite Hl.
    assert (2 <= (List.length buf + 2) / 3).
    { apply Nat.div_le_lower_bound; lia. }
    lia.
  - apply Nat.leb_gt in E. unfold looksLikeB64.
    assert (Hs : (8 <=? String.length (toString_base64 buf))%nat = false).
    { apply Nat.leb_gt. rewrite Hl.
      assert ((List.length buf + 2) / 3 < 2).
      { apply Nat.Div0.div_lt_upper_bound; lia. }
      lia. }
    now rewrite Hs.
Qed.

(* ------------------------------------------------------------------ *)
(** ** The routes, case by case *)

Lemma run_wrap_found kr kms req_body r :
  pickBase64 req_body wrap_keys true = Some r ->
  exists s plaintext,
    b64 r = JStr s /\ looksLikeB64 (JStr s) = true
    /\ b64urlToBuf (JStr s) = Some plaintext
    /\ run kms (wrap kr req_body)
       = (wrap_reply (kms (Encrypt kr plaintext)), [Encrypt kr plaintext]).
Proof.
  intros H. pose proof (pickBase64_qualifies _ _ _ H) as Hq.
  destruct (looksLikeB64_string _ Hq) as [s Hs].
  destruct (b64urlToBuf_string s) as [plaintext Hd].
  exists s, plaintext. rewrite Hs in Hq. repeat split; auto.
  unfold wrap. rewrite H, Hs, Hd. cbn [run].
  now destruct (kms (Encrypt kr plaintext)).
Qed.

Lemma run_unwrap_found kr kms req_body r :
  pickBase64 req_body unwrap_keys true = Some r ->
  exists s ciphertext,
    b64 r = JStr s /\ looksLikeB64 (JStr s) = true
    /\ b64urlToBuf (JStr s) = Some ciphertext
    /\ run kms (unwrap kr req_body)
       = (unwrap_reply (kms (Decrypt kr ciphertext)), [Decrypt kr ciphertext]).
Proof.
  intros H. pose proof (pickBase64_qualifies _ _ _ H) as Hq.
  destruct (looksLikeB64_string _ Hq) as [s Hs].
  destruct (b64urlToBuf_string s) as [ciphertext Hd].
  exists s, ciphertext. rewrite Hs in Hq. repeat split; auto.
  unfold unwrap. rewrite H, Hs, Hd. cbn [run].
  now destruct (kms (Decrypt kr ciphertext)).
Qed.

Lemma run_wrap_none kr kms req_body :
  is_container req_body = true ->
  pickBase64 req_body wrap_keys true = None ->
  run kms (wrap kr req_body)
  = (match get req_body "reason" with
     | JStr reason => noop_reply (JStr reason)
     | _ => missing_reply "missing DEK (base64)" req_body
     end, []).
Proof.
  intros Hc H. unfold wrap. rewrite H. unfold received_keys, missing_reply.
  rewrite (or_empty_container _ Hc).
  now destruct (get req_body "reason").
Qed.

Lemma run_unwrap_none kr kms req_body :
  is_container req_body = true ->
  pickBase64 req_body unwrap_keys true = None ->
  run kms (unwrap kr req_body)
  = (missing_reply "missing wrapped_key/ciphertext (base64)" req_body, []).
Proof.
  intros Hc H. unfold unwrap. rewrite H. unfold received_keys, missing_reply.
  now rewrite (or_empty_container _ Hc).
Qed.

Lemma wrap_keys_not_index_like : forallb not_index_like wrap_keys = true.
Proof. reflexivity. Qed.

Lemma unwrap_keys_not_index_like : forallb not_index_like unwrap_keys = true.
Proof. reflexivity. Qed.



Lemma held_in_field_entry es k v :
  held_in_field (JObj es) = false -> In (k, v) es -> looksLikeB64 v = false.
Proof.
  intros Hh Hin. destruct (looksLikeB64 v) eqn:E; [|reflexivity].
  assert (held_in_field (JObj es) = true); [|congruence].
  simpl. apply existsb_exists. exists (k, v). split; [assumption|].
  simpl. now rewrite E.
Qed.

Lemma get_reason_of_array xs : get (JArr xs) "reason" = JUndef.
Proof.
  unfold get. rewrite assoc_absent; [reflexivity|].
  simpl. intros k' a Hin. apply index_keys_In in Hin.
  destruct Hin as (_ & i & ->). apply index_key_not_reason.
Qed.

(** X10.  The wrap route answers the no-op envelope only when nothing in the
    body qualifies: the [reason] it echoes is a string that does not pass
    [looksLikeB64], no object of the body holds a qualifying string, and the
    provider has not been called.  A [reason] that looks like base64 is
    wrapped as a key. *)
Theorem noop_only_without_candidate kr kms req_body reason :
  fst (run kms (wrap kr req_body)) = noop_reply reason ->
  (exists s, reason = JStr s)
  /\ looksLikeB64 reason = false
  /\ held_in_field req_body = false
  /\ snd (run kms (wrap kr req_body)) = [].
Proof.
  destruct (pickBase64 req_body wrap_keys true) as [r|] eqn:E.
  - destruct (run_wrap_found kr kms req_body E) as (s & pt & _ & _ & _ & ->).
    cbn [fst]. destruct (kms (Encrypt kr pt)); discriminate.
  - assert (Hh : held_in_field req_body = false).
    { destruct (held_in_field req_body) eqn:Hh; [|reflexivity].
      now elim (pickBase64_complete req_body wrap_keys Hh). }
    unfold wrap. rewrite E.
    destruct (get req_body "reason") as [| |b|n|s|xs|es'] eqn:Eg;
      cbn [typeof run fst snd]; try discriminate.
    intros [= <-]. repeat split; eauto.
    destruct req_body as [| |b|n|s'|xs|es]; try discriminate.
    + now rewrite get_reason_of_string in Eg.
    + now rewrite get_reason_of_array in Eg.
    + apply (held_in_field_entry es "reason" _ Hh).
      unfold get in Eg. simpl in Eg.
      destruct (assoc "reason" es) as [v|] eqn:Ea; [|discriminate].
      subst v. now apply assoc_In.
Qed.

Lemma noop_only_without_candidate_witness :
  (exists s, JStr "client error" = JStr s)
  /\ looksLikeB64 (JStr "client error") = false
  /\ held_in_field (JObj [("reason", JStr "client error")]) = false
  /\ snd (run (fun _ => Resolved [])
            (wrap "k" (JObj [("reason", JStr "client error")]))) = [].
Proof.
  apply (@noop_only_without_candidate "k" (fun _ => Resolved [])
           (JObj [("reason", JStr "client error")]) (JStr "client error")).
  reflexivity.
Defined.

(* ------------------------------------------------------------------ *)
(** ** What reaches the provider *)


(** The decoding of any spelling, without white space around it. *)
Lemma b64urlToBuf_spelling url padded buf :
  b64urlToBuf (JStr (spelling url padded (toString_base64 buf))) = Some buf.
Proof.
  unfold b64urlToBuf.
  pose proof (toString_base64_wire buf) as Hw.
  rewrite (trim_no_space _ (no_space_spelling url padded _ Hw)).
  rewrite (std_spelling url padded _ Hw).
  unfold Buffer_from_base64. rewrite sextets_pad4_spelling.
  f_equal. apply base64_round_trip.
Qed.

(** X12.  POST /wrap with [{ key: v }], [v] any spelling of the base64 text
    of the bytes [b]: when [v] passes [looksLikeB64] the provider is asked,
    once, to encrypt exactly [b]; when it does not (a key of fewer than 4
    bytes, or of 4 or 5 bytes without padding) the route answers its
    missing-DEK 400 and the provider is not called. *)
Theorem wrap_key_by_spelling kr kms req url padded b :
  match_route req = Some Wrap ->
  body_payload req
  = Json (JObj [("key", JStr (spelling url padded (toString_base64 b)))]) ->
  if looksLikeB64 (JStr (spelling url padded (toString_base64 b)))
  then snd (serve kr kms req) = [Encrypt kr b]
  else serve kr kms req
       = (send req Wrap
            (Reply 400 (JObj [("error", JStr "missing DEK (base64)");
                              ("received_keys", JArr [JStr "key"])])), []).
Proof.
  intros Hr Hp. unfold serve. rewrite (route_not_preflight _ Hr), Hp, Hr.
  cbn [body_parser].
  destruct (looksLikeB64 (JStr (spelling url padded (toString_base64 b)))) eqn:Hl.
  - unfold wrap, wrap_keys. rewrite (pickBase64_first_name "key" _ _ [] Hl).
    cbn [b64]. rewrite b64urlToBuf_spelling. cbn [run].
    now destruct (kms (Encrypt kr b)).
  - assert (E : pickBase64
                  (JObj [("key", JStr (spelling url padded (toString_base64 b)))])
                  wrap_keys true = None).
    { destruct (pickBase64 _ wrap_keys true) as [r|] eqn:E; [|reflexivity].
      apply (pickBase64_held _ _ _ wrap_keys_not_index_like) in E.
      cbn [held_in_field existsb snd] in E. rewrite Hl in E. discriminate. }
    rewrite (run_wrap_none kr kms
               (JObj [("key", JStr (spelling url padded (toString_base64 b)))])
               eq_refl E).
    reflexivity.
Qed.

(** The 5 bytes of "Hello": unpadded ("SGVsbG8", 7 characters) the key is
    reported missing. *)
Lemma wrap_key_by_spelling_witness :
  serve "k" (fun _ => Resolved []) (post "/wrap" (JObj [("key", JStr "SGVsbG8")]))
  = (send (post "/wrap" (JObj [("key", JStr "SGVsbG8")])) Wrap
       (Reply 400 (JObj [("error", JStr "missing DEK (base64)");
                         ("received_keys", JArr [JStr "key"])])), []).
Proof.
  apply (@wrap_key_by_spelling "k" (fun _ => Resolved [])
           (post "/wrap" (JObj [("key", JStr "SGVsbG8")]))
           false false (list_ascii_of_string "Hello"));
    reflexivity.
Defined.

(* ------------------------------------------------------------------ *)
(** ** The headers of the gate on every answer *)

Lemma header_or_not_empty h d : d <> "" -> header_or h d <> "".
Proof.
  intros Hd. unfold header_or. destruct h as [s|]; [|assumption].
  destruct (s =? "") eqn:E; [assumption|]. now apply String.eqb_neq.
Qed.

(** X13.  Every answer written by the gate or by a route handler, error
    answers included, carries the headers of the gate: an allowed origin
    that is never empty (the [Origin] of the request, or the default one),
    allowed headers that are never empty (the requested ones, or the
    default list), credentials allowed and the four methods. *)
Theorem cors_headers_on_every_answer kr kms req :
  sent_by (fst (serve kr kms req)) <> ByFramework ->
  let r := fst (serve kr kms req) in
  (exists o, header "Access-Control-Allow-Origin" r = Some o /\ o <> ""
             /\ (origin req = Some o \/ o = default_origin))
  /\ (exists h, header "Access-Control-Allow-Headers" r = Some h /\ h <> ""
                /\ (access_control_request_headers req = Some h
                    \/ h = default_allow_headers))
  /\ header "Access-Control-Allow-Credentials" r = Some "true"
  /\ header "Access-Control-Allow-Methods" r = Some "GET,POST,OPTIONS,HEAD"
  /\ header "Vary" r = Some "Origin"
  /\ header "Access-Control-Max-Age" r = Some "86400".
Proof.
  intros Hs.
  assert (Hh : headers (fst (serve kr kms req)) = cors_headers req).
  { unfold serve.
    destruct (is_preflight req); [reflexivity|].
    destruct (body_parser (body_payload req)) as [req_body|]; [|reflexivity].
    destruct (match_route req) as [[| | | |]|]; try reflexivity.
    - now destruct (run kms (wrap kr req_body)).
    - now destruct (run kms (unwrap kr req_body)). }
  cbv zeta. unfold header. rewrite Hh. cbn [cors_headers assoc String.eqb Ascii.eqb Bool.eqb].
  repeat split.
  - eexists. split; [reflexivity|]. split.
    + apply header_or_not_empty. discriminate.
    + unfold header_or. destruct (origin req) as [o|]; [|now right].
      destruct (o =? ""); [now right|now left].
  - eexists. split; [reflexivity|]. split.
    + apply header_or_not_empty. discriminate.
    + unfold header_or.
      destruct (access_control_request_headers req) as [h|]; [|now right].
      destruct (h =? ""); [now right|now left].
Qed.

(** The missing-DEK answer to a cross-origin POST. *)
Lemma cors_headers_on_every_answer_witness :
  let req := Request "POST" "/wrap" (Some "https://example.com") (Some "X-Custom")
               (Json (JObj [])) in
  let r := fst (serve "k" (fun _ => Resolved []) req) in
  (exists o, header "Access-Control-Allow-Origin" r = Some o /\ o <> ""
             /\ (origin req = Some o \/ o = default_origin))
  /\ (exists h, header "Access-Control-Allow-Headers" r = Some h /\ h <> ""
                /\ (access_control_request_headers req = Some h
                    \/ h = default_allow_headers))
  /\ header "Access-Control-Allow-Credentials" r = Some "true"
  /\ header "Access-Control-Allow-Methods" r = Some "GET,POST,OPTIONS,HEAD"
  /\ header "Vary" r = Some "Origin"
  /\ header "Access-Control-Max-Age" r = Some "86400".
Proof.
  intros req.
  apply (@cors_headers_on_every_answer "k" (fun _ => Resolved []) req).
  vm_compute. discriminate.
Defined.

(* ================================================================== *)
(** * The handlers on a bounded stack *)

Lemma first_attempt_sound A (f_on : A -> attempt) (f : A -> option located) l r :
  (forall a r', In a l -> f_on a = Returned r' -> r' = f a) ->
  first_attempt f_on l = Returned r -> r = first_some f l.
Proof.
  induction l as [|a l IH]; simpl; intros H.
  - now intros [= <-].
  - destruct (f_on a) as [|[r1|]] eqn:E; try discriminate.
    + intros [= <-]. now rewrite <- (H a (Some r1)); auto.
    + intros Hr. rewrite <- (H a None); auto.
Qed.

Lemma returned_path_sound f a r inner :
  (forall r', a = Returned r' -> r' = inner) ->
  returned_path f a = Returned r -> r = option_map (map_path f) inner.
Proof.
  intros H. destruct a as [|r']; simpl; [discriminate|].
  intros [= <-]. now rewrite (H r' eq_refl).
Qed.

Lemma activation_on_sound self_on self prefs rec body r :
  (forall v r', self_on v = Returned r' -> r' = self v) ->
  activation_on self_on prefs rec body = Returned r ->
  r = activation self prefs rec body.
Proof.
  intros Hs. unfold activation_on, activation.
  destruct (negb (truthy body) || negb (is_object_type body));
    [now intros [= <-]|].
  destruct (first_attempt (try_preferred_on self_on body) prefs) as [|r1] eqn:E1;
    [discriminate|].
  apply (first_attempt_sound _ (try_preferred self body)) in E1.
  2:{ intros k r' _. unfold try_preferred_on, try_preferred.
      destruct (looksLikeB64 (get body k)); [now intros [= <-]|].
      destruct (has body k && is_object_type (get body k)); [|now intros [= <-]].
      apply returned_path_sound. apply Hs. }
  rewrite <- E1. destruct r1 as [r1|]; [now intros [= <-]|].
  destruct (negb rec); [now intros [= <-]|].
  destruct (isArray body).
  - apply first_attempt_sound. intros [i v] r' _. unfold try_element_on, try_element.
    apply returned_path_sound. apply Hs.
  - apply first_attempt_sound. intros [k v] r' _. unfold try_entry_on, try_entry.
    destruct (looksLikeB64 v); [now intros [= <-]|].
    destruct (truthy v && is_object_type v); [|now intros [= <-]].
    apply returned_path_sound. apply Hs.
Qed.

(** When the call returns, it returns what [pickBase64] computes. *)
Lemma pickBase64_on_sound frames body prefs rec r :
  pickBase64_on frames body prefs rec = Returned r ->
  r = pickBase64 body prefs rec.
Proof.
  revert body r. induction frames as [|n IH]; intros body r; simpl;
    [discriminate|].
  rewrite pickBase64_unfold. apply activation_on_sound. intros v r'. apply IH.
Qed.

Lemma first_attempt_returns A (f : A -> attempt) l :
  (forall a, In a l -> f a <> Overflow) -> first_attempt f l <> Overflow.
Proof.
  induction l as [|a l IH]; simpl; intros H; [discriminate|].
  pose proof (H a (or_introl eq_refl)) as Ha.
  destruct (f a) as [|[r|]]; [congruence|discriminate|auto].
Qed.

Lemma returned_path_returns f a : a <> Overflow -> returned_path f a <> Overflow.
Proof. destruct a; [congruence|discriminate]. Qed.

Lemma activation_on_returns self_on prefs rec body :
  (forall k v, In (k, v) (entries body) -> self_on v <> Overflow) ->
  activation_on self_on prefs rec body <> Overflow.
Proof.
  intros Hs. unfold activation_on.
  destruct (negb (truthy body) || negb (is_object_type body)); [discriminate|].
  assert (Hp : first_attempt (try_preferred_on self_on body) prefs <> Overflow).
  { apply first_attempt_returns. intros k _. unfold try_preferred_on, has, get.
    destruct (assoc k (entries body)) as [v|] eqn:Ea; simpl; [|discriminate].
    destruct (looksLikeB64 v); [discriminate|].
    destruct (is_object_type v); [|discriminate].
    apply returned_path_returns. eapply Hs. eapply assoc_In; eauto. }
  destruct (first_attempt (try_preferred_on self_on body) prefs) as [|[r|]];
    [congruence|discriminate|].
  destruct (negb rec); [discriminate|].
  destruct (isArray body); apply first_attempt_returns.
  - intros [i v] Hin. apply returned_path_returns. eapply Hs; eauto.
  - intros [k v] Hin. unfold try_entry_on.
    destruct (looksLikeB64 v); [discriminate|].
    destruct (truthy v && is_object_type v); [|discriminate].
    apply returned_path_returns. eapply Hs; eauto.
Qed.

Lemma fold_max_In A (f : A -> nat) (l : list A) a :
  In a l -> f a <= fold_right (fun x n => Nat.max (f x) n) 0 l.
Proof.
  induction l as [|x l IH]; simpl; [tauto|].
  intros [-> | Hin]; [lia|]. specialize (IH Hin). lia.
Qed.

Lemma nesting_entry body k v :
  is_container body = true -> In (k, v) (entries body) -> nesting v < nesting body.
Proof.
  destruct body as [| |b|n|s|xs|es]; try discriminate; intros _ Hin; simpl.
  - apply index_keys_In in Hin. destruct Hin as [Hin _].
    pose proof (fold_max_In nesting xs v Hin). lia.
  - pose proof (fold_max_In (fun kv => nesting (snd kv)) es (k, v) Hin) as H.
    simpl in H. lia.
Qed.

(** A stack with room for more activations than the body is nested never
    overflows. *)
Lemma pickBase64_on_fits frames body prefs rec :
  nesting body < frames ->
  pickBase64_on frames body prefs rec = Returned (pickBase64 body prefs rec).
Proof.
  intros H.
  assert (Hr : pickBase64_on frames body prefs rec <> Overflow).
  { revert body H. induction frames as [|n IH]; intros body H; [lia|]. simpl.
    destruct (is_container body) eqn:Hc.
    - apply activation_on_returns. intros k v Hin. apply IH.
      pose proof (nesting_entry body k v Hc Hin). lia.
    - unfold activation_on. destruct body; try discriminate; simpl;
        try discriminate; now rewrite ?orb_true_r. }
  destruct (pickBase64_on frames body prefs rec) as [|r] eqn:E; [congruence|].
  now rewrite (pickBase64_on_sound _ _ _ _ E).
Qed.

Lemma map_fst_combine A B (ks : list A) (xs : list B) :
  List.length ks = List.length xs -> map fst (combine ks xs) = ks.
Proof.
  revert xs; induction ks as [|k ks IH]; intros [|x xs]; simpl;
    try reflexivity; try discriminate.
  intros [= H]. now rewrite IH.
Qed.

Lemma Object_keys_top_level body :
  is_container body = true -> Object_keys body = top_level_names body.
Proof.
  destruct body as [| |b|n|s|xs|es]; try discriminate; intros _;
    [|reflexivity].
  unfold Object_keys, entries, index_keys, top_level_names.
  apply map_fst_combine. now rewrite length_map, length_seq.
Qed.

(* ------------------------------------------------------------------ *)
(** ** Wrap without a candidate (C3) *)



(* ------------------------------------------------------------------ *)
(** ** Provider failures (C7) *)

(** C7.  On POST /wrap and on POST /unwrap, when the locator has returned a
    candidate (so the handler reaches the provider call, on the decoding of
    the candidate) and that call is rejected, the response is 500 with the
    error tag of the route ([wrap_failed], [unwrap_failed]) and a string
    [detail]: the string of the failure's message when it has a truthy one,
    the string of the failure otherwise.  The provider has been called
    exactly once. *)
Theorem provider_failure_reported frames kr kms req rt req_body got data e :
  match_route req = Some rt ->
  rt = Wrap \/ rt = Unwrap ->
  body_parser (body_payload req) = Some req_body ->
  pickBase64_on frames req_body (keys_of rt) true = Returned (Some got) ->
  b64urlToBuf (b64 got) = Some data ->
  kms (call_of rt kr data) = Rejected e ->
  serve_on frames kr kms req
  = (Response 500 (cors_headers req)
       (JsonBody
          (JObj [("error", JStr (failure_tag rt));
                 ("detail",
                  JStr (if truthy (message e) then js_string (message e)
                        else as_string e))]))
       (ByRoute rt),
     [call_of rt kr data]).
Proof.
  intros Hr Hrt Hb Hp Hd Hk. unfold serve_on.
  rewrite (route_not_preflight _ Hr), Hb, Hr.
  pose proof (eq_sym (pickBase64_on_sound _ _ _ _ Hp)) as E.
  destruct Hrt as [-> | ->]; cbn [keys_of call_of failure_tag] in *.
  - unfold wrap_on. rewrite Hp.
    destruct (run_wrap_found kr kms req_body E) as (s & pt & Hs & _ & Hpt & ->).
    rewrite Hs, Hpt in Hd. injection Hd as ->. now rewrite Hk.
  - unfold unwrap_on. rewrite Hp.
    destruct (run_unwrap_found kr kms req_body E) as (s & ct & Hs & _ & Hct & ->).
    rewrite Hs, Hct in Hd. injection Hd as ->. now rewrite Hk.
Qed.

(** A refused wrap (the failure has a message) and a refused unwrap (the
    message of the failure is the number 42). *)
Lemma provider_failure_reported_witness :
  let denied := Failure (JStr "7 PERMISSION_DENIED") "Error: 7 PERMISSION_DENIED" in
  let odd := Failure (JNum 42) "[object Object]" in
  let wrap_req := Request "POST" "/wrap" None None (Json (JObj [("key", JStr "SGVsbG8=")])) in
  let unwrap_req :=
    Request "POST" "/unwrap" None None (Json (JObj [("wrapped_key", JStr "b2xsZUg=")])) in
  serve_on 8 "k" (fun _ => Rejected denied) wrap_req
  = (Response 500 (cors_headers wrap_req)
       (JsonBody (JObj [("error", JStr "wrap_failed");
                        ("detail", JStr "7 PERMISSION_DENIED")]))
       (ByRoute Wrap),
     [Encrypt "k" (list_ascii_of_string "Hello")])
  /\ serve_on 8 "k" (fun _ => Rejected odd) unwrap_req
     = (Response 500 (cors_headers unwrap_req)
          (JsonBody (JObj [("error", JStr "unwrap_failed"); ("detail", JStr "42")]))
          (ByRoute Unwrap),
        [Decrypt "k" (list_ascii_of_string "olleH")]).
Proof.
  intros denied odd wrap_req unwrap_req. split.
  - apply (@provider_failure_reported 8 "k" (fun _ => Rejected denied) wrap_req Wrap
             (JObj [("key", JStr "SGVsbG8=")])
             (Located "key" (JStr "SGVsbG8=") "key")
             (list_ascii_of_string "Hello") denied);
      try reflexivity. now left.
  - apply (@provider_failure_reported 8 "k" (fun _ => Rejected odd) unwrap_req Unwrap
             (JObj [("wrapped_key", JStr "b2xsZUg=")])
             (Located "wrapped_key" (JStr "b2xsZUg=") "wrapped_key")
             (list_ascii_of_string "olleH") odd);
      try reflexivity. now right.
Defined.

(* ------------------------------------------------------------------ *)
(** ** Bodies that are not objects (C10) *)

Lemma chars_length s : List.length (chars s) = String.length s.
Proof. induction s as [|c s IH]; simpl; congruence. Qed.

(** [Object.keys(s || {})] of a string: its indices. *)
Lemma string_keys s :
  received_keys (JStr s)
  = JArr (map JStr (map index_key (seq 0 (String.length s)))).
Proof.
  destruct s as [|c s]; [reflexivity|].
  unfold received_keys, or_empty, Object_keys, entries, index_keys.
  cbn [truthy String.eqb negb].
  rewrite map_fst_combine by now rewrite length_map, length_seq.
  now rewrite length_map, chars_length.
Qed.

(** C10, amended.  On a body that is neither an object nor an array the
    locator returns nothing, whatever the preferred names and the recursion
    flag, and the wrap handler applied to it answers its missing-candidate
    error without calling the provider.  Over HTTP such a body does not
    reach the handler: [bodyParser.json] refuses it and Express answers 400
    itself; no wrap takes place. *)
Theorem pickBase64_not_object frames kr kms prefs rec body req :
  is_container body = false ->
  is_preflight req = false ->
  body_payload req = Json body ->
  pickBase64 body prefs rec = None
  /\ pickBase64_on (S frames) body prefs rec = Returned None
  /\ run kms (wrap_on (S frames) kr body)
     = (Reply 400
          (JObj [("error", JStr "missing DEK (base64)");
                 ("received_keys",
                  JArr (match body with
                        | JStr s => map JStr (map index_key (seq 0 (String.length s)))
                        | _ => []
                        end))]), [])
  /\ serve_on frames kr kms req
     = (Response 400 (cors_headers req) FrameworkPage ByFramework, []).
Proof.
  intros Hc Hp Hb.
  assert (Hn : pickBase64 body prefs rec = None) by now apply pickBase64_leaf.
  assert (Ho : forall ks, pickBase64_on (S frames) body ks rec = Returned None).
  { intros ks. rewrite pickBase64_on_fits;
      [now rewrite pickBase64_leaf|destruct body; try discriminate; simpl; lia]. }
  split; [exact Hn|]. split; [apply Ho|]. split.
  - unfold wrap_on. 
    rewrite (@pickBase64_on_fits (S frames) body wrap_keys true)
      by (destruct body; try discriminate; simpl; lia).
    destruct body as [| |b|n|s|xs|es]; try discriminate; try reflexivity.
    + now destruct b.
    + unfold wrap, received_keys, or_empty. cbn [truthy].
      now destruct (n =? 0)%Z.
    + unfold wrap. rewrite get_reason_of_string. cbn [pickBase64 typeof run].
      rewrite (string_keys s). reflexivity.
  - unfold serve_on. rewrite Hp, Hb.
    destruct body; try discriminate; reflexivity.
Qed.

(** A body that is itself a qualifying string. *)
Lemma pickBase64_not_object_witness :
  pickBase64 (JStr "QUFBQUFBQUE=") wrap_keys true = None
  /\ pickBase64_on 1 (JStr "QUFBQUFBQUE=") wrap_keys true = Returned None
  /\ run (fun _ => Resolved []) (wrap_on 1 "k" (JStr "QUFBQUFBQUE="))
     = (Reply 400 (JObj [("error", JStr "missing DEK (base64)");
                         ("received_keys",
                          JArr (map JStr ["0"; "1"; "2"; "3"; "4"; "5"; "6"; "7";
                                          "8"; "9"; "10"; "11"]))]), [])
  /\ serve_on 0 "k" (fun _ => Resolved []) (post "/wrap" (JStr "QUFBQUFBQUE="))
     = (Response 400 (cors_headers (post "/wrap" (JStr "QUFBQUFBQUE=")))
          FrameworkPage ByFramework, []).
Proof.
  apply (@pickBase64_not_object 0 "k" (fun _ => Resolved []) wrap_keys true
           (JStr "QUFBQUFBQUE=") (post "/wrap" (JStr "QUFBQUFBQUE=")));
    reflexivity.
Defined.

(** C10 as written fails over HTTP: the body ["QUFBQUFBQUE="] sent as a JSON
    string is answered by Express, not by the handler. *)
Lemma non_object_body_reported_missing_counterexample :
  ~ non_object_body_reported_missing.
Proof.
  intros H.
  destruct (H 8 "k" (fun _ => Resolved []) (JStr "QUFBQUFBQUE=") eq_refl)
    as [keys Hk].
  vm_compute in Hk. discriminate.
Qed.

(* ------------------------------------------------------------------ *)
(** ** The application on a bounded stack *)

(** The application answers as [serve] says, unless the locator of the wrap
    or of the unwrap route has exhausted the stack. *)
Lemma serve_on_cases frames kr kms req :
  (serve_on frames kr kms req = serve kr kms req
   /\ forall rt body,
        (rt = Wrap \/ rt = Unwrap) -> match_route req = Some rt ->
        body_parser (body_payload req) = Some body ->
        pickBase64_on frames body (keys_of rt) true <> Overflow)
  \/ (exists rt body,
        (rt = Wrap \/ rt = Unwrap) /\ match_route req = Some rt
        /\ body_parser (body_payload req) = Some body
        /\ pickBase64_on frames body (keys_of rt) true = Overflow
        /\ serve_on frames kr kms req
           = (Response 500 (cors_headers req)
                (JsonBody
                   (JObj [("error", JStr (failure_tag rt));
                          ("detail", JStr "Maximum call stack size exceeded")]))
                (ByRoute rt), [])).
Proof.
  unfold serve_on, serve.
  destruct (is_preflight req) eqn:Hp.
  { left. split; [reflexivity|]. intros rt body _ Hr.
    rewrite (route_not_preflight _ Hr) in Hp. discriminate. }
  destruct (body_parser (body_payload req)) as [req_body|];
    [|left; split; [reflexivity|discriminate]].
  destruct (match_route req) as [[| | | |]|];
    try (left; split; [reflexivity|];
         intros rt body [-> | ->] Hr; discriminate).
  - unfold wrap_on.
    destruct (pickBase64_on frames req_body wrap_keys true) as [|r] eqn:E.
    + right. exists Wrap, req_body. repeat split; auto.
    + left. split; [reflexivity|].
      intros rt body [-> | ->] [= ] [= <-]. cbn [keys_of]. congruence.
  - unfold unwrap_on.
    destruct (pickBase64_on frames req_body unwrap_keys true) as [|r] eqn:E.
    + right. exists Unwrap, req_body. repeat split; auto.
    + left. split; [reflexivity|].
      intros rt body [-> | ->] [= ] [= <-]. cbn [keys_of]. congruence.
Qed.





(** X8.  Both routes tolerate any shape of body the parser hands over.  If
    the locator exhausts the stack the route answers 500 without calling the
    provider.  Otherwise the locator returns a candidate exactly when some
    object of the body, at any depth and under any name, holds a qualifying
    string: then the candidate is a qualifying string that decodes, the
    provider is called exactly once, under the configured key and on that
    decoding, and the answer is 200 with the encoded result or 500 with the
    failure; when no object holds one the provider is not called, unwrap
    answers its missing-candidate 400 with the top-level names whatever the
    body holds, wrap answers the no-op envelope when [reason] is a string
    and its missing-candidate 400 when it is not. *)
Theorem routes_by_held_string frames kr kms req rt req_body :
  match_route req = Some rt ->
  rt = Wrap \/ rt = Unwrap ->
  body_parser (body_payload req) = Some req_body ->
  match pickBase64_on frames req_body (keys_of rt) true with
  | Overflow =>
      serve_on frames kr kms req
      = (Response 500 (cors_headers req)
           (JsonBody
              (JObj [("error", JStr (failure_tag rt));
                     ("detail", JStr "Maximum call stack size exceeded")]))
           (ByRoute rt), [])
  | Returned (Some got) =>
      held_in_field req_body = true
      /\ exists s data,
           b64 got = JStr s /\ looksLikeB64 (JStr s) = true
           /\ b64urlToBuf (JStr s) = Some data
           /\ serve_on frames kr kms req
              = (match kms (call_of rt kr data) with
                 | Resolved result =>
                     Response 200 (cors_headers req)
                       (JsonBody
                          (JObj [(match rt with Unwrap => "key" | _ => "wrapped_key" end,
                                  JStr (toString_base64 result))]))
                       (ByRoute rt)
                 | Rejected e | Garbled e =>
                     Response 500 (cors_headers req)
                       (JsonBody
                          (JObj [("error", JStr (failure_tag rt));
                                 ("detail",
                                  JStr (if truthy (message e) then js_string (message e)
                                        else as_string e))]))
                       (ByRoute rt)
                 end, [call_of rt kr data])
  | Returned None =>
      held_in_field req_body = false
      /\ serve_on frames kr kms req
         = (match rt, get req_body "reason" with
            | Wrap, JStr reason =>
                Response 200 (cors_headers req)
                  (JsonBody (JObj [("ok", JBool true);
                                   ("note", JStr "noop (error envelope)");
                                   ("reason", JStr reason)]))
                  (ByRoute rt)
            | _, _ =>
                Response 400 (cors_headers req)
                  (JsonBody
                     (JObj [("error",
                             JStr (match rt with
                                   | Unwrap => "missing wrapped_key/ciphertext (base64)"
                                   | _ => "missing DEK (base64)"
                                   end));
                            ("received_keys", JArr (map JStr (top_level_names req_body)))]))
                  (ByRoute rt)
            end, [])
  end.
Proof.
  intros Hr Hrt Hb.
  pose proof (body_parser_container _ Hb) as Hc.
  destruct (pickBase64_on frames req_body (keys_of rt) true) as [|[got|]] eqn:Hp.
  - destruct (serve_on_cases frames kr kms req)
      as [[_ Hfit]|(rt' & body & _ & Hr' & Hb' & _ & ->)].
    + now elim (Hfit rt req_body Hrt Hr Hb).
    + congruence.
  - pose proof (eq_sym (pickBase64_on_sound _ _ _ _ Hp)) as E.
    unfold serve_on. rewrite (route_not_preflight _ Hr), Hb, Hr.
    destruct Hrt as [-> | ->]; cbn [keys_of call_of failure_tag] in *.
    + split; [exact (pickBase64_held _ _ _ wrap_keys_not_index_like E)|].
      unfold wrap_on. rewrite Hp.
      destruct (run_wrap_found kr kms req_body E) as (s & data & Hs & Hq & Hd & ->).
      exists s, data. repeat (split; [assumption|]).
      now destruct (kms (Encrypt kr data)).
    + split; [exact (pickBase64_held _ _ _ unwrap_keys_not_index_like E)|].
      unfold unwrap_on. rewrite Hp.
      destruct (run_unwrap_found kr kms req_body E) as (s & data & Hs & Hq & Hd & ->).
      exists s, data. repeat (split; [assumption|]).
      now destruct (kms (Decrypt kr data)).
  - pose proof (eq_sym (pickBase64_on_sound _ _ _ _ Hp)) as E.
    assert (Hh : held_in_field req_body = false).
    { destruct (held_in_field req_body) eqn:Hh; [|reflexivity].
      now elim (pickBase64_complete req_body (keys_of rt) Hh). }
    split; [exact Hh|].
    unfold serve_on. rewrite (route_not_preflight _ Hr), Hb, Hr.
    destruct Hrt as [-> | ->]; cbn [keys_of] in *.
    + unfold wrap_on. rewrite Hp, (run_wrap_none kr kms _ Hc E).
      unfold missing_reply, noop_reply, send.
      rewrite (Object_keys_top_level _ Hc).
      now destruct (get req_body "reason").
    + unfold unwrap_on. rewrite Hp, (run_unwrap_none kr kms _ Hc E).
      unfold missing_reply, send.
      rewrite (Object_keys_top_level _ Hc).
      now destruct (get req_body "reason").
Qed.

(** A ciphertext under an unexpected name, inside an array of objects (the
    [reason] beside it changes nothing); a qualifying string that is an
    element of an array, which no object holds; a body nested deeper than
    the stack. *)
Lemma routes_by_held_string_witness :
  let kms := fun _ : kms_call => Resolved (list_ascii_of_string "Hello") in
  let held := JObj [("reason", JStr "retry");
                    ("items", JArr [JObj [("blob", JStr "b2xsZUg=")]])] in
  let loose := JObj [("dek", JArr [JStr "QUFBQUFBQUE="])] in
  let deep := JObj [("a", JObj [("b", JObj [("c", JNum 1)])])] in
  (held_in_field held = true
   /\ exists s data,
        JStr "b2xsZUg=" = JStr s /\ looksLikeB64 (JStr s) = true
        /\ b64urlToBuf (JStr s) = Some data
        /\ serve_on 8 "k" kms (post "/unwrap" held)
           = (Response 200 (cors_headers (post "/unwrap" held))
                (JsonBody (JObj [("key", JStr "SGVsbG8=")])) (ByRoute Unwrap),
              [Decrypt "k" data]))
  /\ (held_in_field loose = false
      /\ serve_on 8 "k" kms (post "/wrap" loose)
         = (Response 400 (cors_headers (post "/wrap" loose))
              (JsonBody (JObj [("error", JStr "missing DEK (base64)");
                               ("received_keys", JArr [JStr "dek"])]))
              (ByRoute Wrap), []))
  /\ serve_on 2 "k" kms (post "/wrap" deep)
     = (Response 500 (cors_headers (post "/wrap" deep))
          (JsonBody (JObj [("error", JStr "wrap_failed");
                           ("detail", JStr "Maximum call stack size exceeded")]))
          (ByRoute Wrap), []).
Proof.
  intros kms held loose deep. split; [|split].
  - apply (@routes_by_held_string 8 "k" kms (post "/unwrap" held) Unwrap held);
      [reflexivity|now right|reflexivity].
  - apply (@routes_by_held_string 8 "k" kms (post "/wrap" loose) Wrap loose);
      [reflexivity|now left|reflexivity].
  - apply (@routes_by_held_string 2 "k" kms (post "/wrap" deep) Wrap deep);
      [reflexivity|now left|reflexivity].
Defined.

(* ------------------------------------------------------------------ *)
(** ** Startup *)




(** With room on the stack for the nesting of the body, the application
    answers as [serve] says. *)
Lemma serve_on_room frames kr kms req :
  (forall body, body_parser (body_payload req) = Some body ->
                nesting body < frames) ->
  serve_on frames kr kms req = serve kr kms req.
Proof.
  intros Hroom.
  destruct (serve_on_cases frames kr kms req)
    as [[H _]|(rt & body & _ & _ & Hb & Ho & _)]; [exact H|].
  rewrite (@pickBase64_on_fits frames body (keys_of rt) true (Hroom body Hb)) in Ho.
  discriminate.
Qed.
